(** * Design Thinking Coach: the frontend core (utils.ts, App.tsx, types.ts)

    A shallow embedding of the progress tracker, the percentage computation,
    the export generator, the session id helper, the configuration loader and
    the send-message handler, with the properties the specification states
    about them; then the remaining handlers of the component (commands,
    reload, summary, example questions), the elapsed-time text, and what the
    code keeps over every run of events.

    Modelling conventions.
    - A JavaScript string is a sequence of code units; the model covers the
      code units U+0000..U+00FF, one [ascii] each.  On that range
      [toLowerCase], [trim] and [includes] below are the ECMAScript functions.
    - A [Record<string, boolean>] is a [gmap string bool]; reading an absent
      key gives [None] (JavaScript's [undefined], which is falsy).  Keys are
      taken not to name a property every object inherits ([constructor],
      [__proto__], ...).
    - Integral JavaScript numbers (counts, timestamps, HTTP statuses) are [N];
      [pretty] is their decimal numeral, which is what string interpolation
      prints for them.  The one quotient of the code, in the percentage, is
      given twice: exactly, and in binary64 as the engine computes it.
    - Everything the browser supplies (the clock, the outcome of [fetch], the
      contents of [localStorage]) is an explicit argument. *)

From Stdlib Require Import NArith ZArith Ascii String.
From Stdlib Require PrimFloat FloatOps SpecFloat Uint63.
From stdpp Require Import base tactics option list gmap fin_maps strings pretty.

Local Open Scope N_scope.

(** ** JavaScript strings *)

Definition nl : string := String (ascii_of_N 10) "".

(** [String.prototype.toLowerCase], on one code unit: A-Z and the Latin-1
    capitals U+00C0..U+00DE (the multiplication sign U+00D7 apart) move up by
    32; every other code unit below U+0100 is its own lower case. *)
Definition toLowerCase_char (c : ascii) : ascii :=
  let n := N_of_ascii c in
  if ((65 <=? n) && (n <=? 90)) ||
     ((192 <=? n) && (n <=? 222) && negb (n =? 215))
  then ascii_of_N (n + 32)
  else c.

Fixpoint toLowerCase (s : string) : string :=
  match s with
  | EmptyString => EmptyString
  | String c s' => String (toLowerCase_char c) (toLowerCase s')
  end.

(** [String.prototype.includes]: [sub] occurs in [s] at some position. *)
Fixpoint includes (s sub : string) : bool :=
  if String.prefix sub s then true
  else match s with
       | EmptyString => false
       | String _ s' => includes s' sub
       end.

(** White space and line terminators of ECMAScript below U+0100. *)
Definition is_space (c : ascii) : bool :=
  let n := N_of_ascii c in
  ((9 <=? n) && (n <=? 13)) || (n =? 32) || (n =? 160).

Fixpoint trimStart (s : string) : string :=
  match s with
  | EmptyString => EmptyString
  | String c s' => if is_space c then trimStart s' else s
  end.

(** [trimEnd] keeps a character when it is not a space or when something
    survives to its right. *)
Fixpoint trimEnd (s : string) : string :=
  match s with
  | EmptyString => EmptyString
  | String c s' =>
      match trimEnd s' with
      | EmptyString => if is_space c then EmptyString else String c EmptyString
      | r => String c r
      end
  end.

Definition trim (s : string) : string := trimEnd (trimStart s).

(** JavaScript truthiness of a string: only the empty string is falsy. *)
Definition truthy (s : string) : bool :=
  match s with EmptyString => false | _ => true end.

(** ** types.ts *)

Inductive MessageType := user | assistant | system.

Record Message := mkMessage {
  type : MessageType;
  content : string;
  timestamp : N;
  isStructuredSummary : option bool
}.

Record FrameworkStage := mkStage {
  key : string;
  title : string;
  description : string;
  icon : string;
  keywords : list string
}.

Record ChatResponse := mkChatResponse {
  message : option string;
  reply : option string
}.

Global Instance MessageType_eq_dec : EqDecision MessageType.
Proof. solve_decision. Defined.

Definition is_type (t : MessageType) (m : Message) : bool :=
  bool_decide (type m = t).

(** ** utils.ts: framework progress tracking *)

(** The test of the [forEach] callback: some keyword, lower-cased, occurs in
    the lower-cased reply. *)
Definition found (lower : string) (stage : FrameworkStage) : bool :=
  existsb (fun keyword => includes lower (toLowerCase keyword)) (keywords stage).

(** One run of the callback on the accumulated copy. *)
Definition markStage (lower : string)
    (newProgress : gmap string bool) (stage : FrameworkStage) : gmap string bool :=
  if found lower stage then <[key stage := true]> newProgress else newProgress.

Definition updateFrameworkProgress (content : string)
    (frameworkSteps : list FrameworkStage)
    (currentProgress : gmap string bool) : gmap string bool :=
  let lower := toLowerCase content in
  let newProgress := currentProgress in
  foldl (markStage lower) newProgress frameworkSteps.

(** A progress entry read in a condition: truthy exactly when it is [true]. *)
Definition covered (frameworkProgress : gmap string bool) (step : FrameworkStage) : bool :=
  bool_decide (frameworkProgress !! key step = Some true).

(** ** App.tsx: the progress percentage *)

(** [Object.values(p).filter(v => v === true).length] *)
Definition count_true (frameworkProgress : gmap string bool) : N :=
  N.of_nat (length (filter (fun v => v = true) (map_to_list frameworkProgress).*2)).

(** [Math.round(a / b * 100)] for counts [a] and [b > 0], with the quotient
    and the product taken exactly.  [Math.round] sends a half to the integer
    above. *)
Definition round_percent (a b : N) : N := (200 * a + b) / (2 * b).

Definition progressPercentage (frameworkSteps : list FrameworkStage)
    (frameworkProgress : gmap string bool) : N :=
  if 0 <? N.of_nat (length frameworkSteps)
  then round_percent (count_true frameworkProgress) (N.of_nat (length frameworkSteps))
  else 0.

(** The same expression as the engine evaluates it, in binary64: the quotient
    is rounded to a double, and so is its product with 100. *)
Definition number (a : N) : PrimFloat.float :=
  PrimFloat.of_uint63 (Uint63.of_Z (Z.of_N a)).

(** [Math.round] of a double: the integer nearest to it, the upper one of two;
    nothing for an infinity or a NaN. *)
Definition Math_round (x : PrimFloat.float) : option Z :=
  match FloatOps.Prim2SF x with
  | SpecFloat.S754_zero _ => Some 0%Z
  | SpecFloat.S754_finite s m e =>
      let v := if s then Z.neg m else Z.pos m in
      Some (if (0 <=? e)%Z then (v * 2 ^ e)%Z
            else ((2 * v + 2 ^ (- e)) / 2 ^ (1 - e))%Z)
  | _ => None
  end.

Definition round_percent_binary64 (a b : N) : option Z :=
  Math_round (PrimFloat.mul (PrimFloat.div (number a) (number b)) (number 100)).

Definition progressPercentage_binary64 (frameworkSteps : list FrameworkStage)
    (frameworkProgress : gmap string bool) : option Z :=
  if 0 <? N.of_nat (length frameworkSteps)
  then round_percent_binary64 (count_true frameworkProgress)
         (N.of_nat (length frameworkSteps))
  else Some 0%Z.

(** ** utils.ts: the export generator *)

(** The assistant messages that mention the stage, as the [filter] of the
    source selects them: both sides lower-cased. *)
Definition relevant (step : FrameworkStage) (msg : Message) : bool :=
  is_type assistant msg &&
  includes (toLowerCase (content msg)) (toLowerCase (key step)).

(** One run of the [completedSteps.forEach] callback on [output]. *)
Definition appendStep (messages : list Message)
    (output : string) (step : FrameworkStage) : string :=
  let output := output +:+ ("## " +:+ icon step +:+ " " +:+ title step +:+ nl) in
  let output := output +:+ (description step +:+ nl +:+ nl) in
  let relevantMessages := List.filter (relevant step) messages in
  match relevantMessages with
  | first :: _ => output +:+ (content first +:+ nl +:+ nl)
  | [] => output
  end.

(** [today] is [new Date().toLocaleDateString('de-DE')], the one reading of
    the clock. *)
Definition generateStructuredOutput (today : string)
    (messages : list Message) (frameworkSteps : list FrameworkStage)
    (frameworkProgress : gmap string bool) (progressPercentage : N) : string :=
  let completedSteps := List.filter (covered frameworkProgress) frameworkSteps in
  let output := "# Design Thinking Analyse" +:+ nl +:+ nl in
  let output := output +:+ ("**Datum:** " +:+ today +:+ nl) in
  let output := output +:+ ("**Fortschritt:** " +:+ pretty progressPercentage +:+ "%" +:+ nl +:+ nl) in
  let output := foldl (appendStep messages) output completedSteps in
  let output := output +:+ ("---" +:+ nl +:+ nl) in
  let output := output +:+ ("**Generiert durch Design Thinking Coach v1.0**" +:+ nl) in
  let output := output +:+
    ("**Session-Nachrichten:** " +:+
     pretty (N.of_nat (length (List.filter (is_type user) messages))) +:+ nl) in
  output.

(** ** utils.ts: session management *)

(** [localStorage] is a map from item names to strings; [getItem] of an absent
    item is [null]. [now] is the reading [Date.now()] would give. *)
Definition getSessionId (now : N) (localStorage : gmap string string)
    : string * gmap string string :=
  let sessionId := localStorage !! "dt-session-id" in
  match sessionId with
  | Some stored =>
      if truthy stored then (stored, localStorage)
      else
        let sessionId := "session-" +:+ pretty now in
        (sessionId, <["dt-session-id" := sessionId]> localStorage)
  | None =>
      let sessionId := "session-" +:+ pretty now in
      (sessionId, <["dt-session-id" := sessionId]> localStorage)
  end.

(** ** utils.ts: the API helpers *)

(** What a [catch] clause receives: an [Error] with its message, or some other
    value. *)
Inductive Thrown :=
  | Error (msg : string)
  | NonError.

(** The body of a response read with [response.json()]. *)
Inductive Body (A : Type) :=
  | BodyThrows (e : Thrown)
  | BodyJson (data : A).
Arguments BodyThrows {A} e.
Arguments BodyJson {A} data.

(** What [await fetch(...)] does: it rejects, or yields a response. *)
Inductive FetchOutcome (A : Type) :=
  | Rejected (e : Thrown)
  | Response (ok : bool) (status : N) (body : Body A).
Arguments Rejected {A} e.
Arguments Response {A} ok status body.

(** The stage record as the configuration endpoint sends it: the icon and the
    keywords may be missing. *)
Record RawStage := mkRawStage {
  raw_key : string;
  raw_title : string;
  raw_description : string;
  raw_icon : option string;
  raw_keywords : option (list string)
}.

Record FrameworkConfig := mkFrameworkConfig { stages : option (list RawStage) }.
Record Config := mkConfig { framework : option FrameworkConfig }.
Record ConfigResponse := mkConfigResponse { config : option Config }.

(** [a || b] on an optional string: [b] when [a] is absent or empty. *)
Definition or_else (a : option string) (b : string) : string :=
  match a with
  | Some s => if truthy s then s else b
  | None => b
  end.

Definition chatAPI_sendMessage
    (server : string -> string -> FetchOutcome ChatResponse)
    (message sessionId : string) : Thrown + ChatResponse :=
  match server message sessionId with
  | Rejected e => inl e
  | Response ok status body =>
      if negb ok then inl (Error ("HTTP error! status: " +:+ pretty status))
      else match body with
           | BodyThrows e => inl e
           | BodyJson data => inr data
           end
  end.

(** [data.config?.framework?.stages] *)
Definition optional_stages (data : ConfigResponse) : option (list RawStage) :=
  match config data with
  | Some c => match framework c with
              | Some f => stages f
              | None => None
              end
  | None => None
  end.

(** [pin] is the default icon of the source, a pushpin outside the modelled
    code units. *)
Definition chatAPI_loadFrameworkStages (pin : string)
    (server : FetchOutcome ConfigResponse) : Thrown + list FrameworkStage :=
  match server with
  | Rejected e => inl e
  | Response ok status body =>
      if negb ok then inl (Error ("API config endpoint failed: " +:+ pretty status))
      else match body with
           | BodyThrows e => inl e
           | BodyJson data =>
               match optional_stages data with
               | Some stages =>
                   inr (map (fun stage =>
                          {| key := raw_key stage;
                             title := raw_title stage;
                             description := raw_description stage;
                             icon := or_else (raw_icon stage) pin;
                             keywords := default [] (raw_keywords stage) |}) stages)
               | None => inl (Error "Framework stages not found in config")
               end
           end
  end.

(** ** App.tsx: the component state and its handlers *)

Record AppState := mkApp {
  messages : list Message;
  newMessage : string;
  loading : bool;
  isActive : bool;
  startTime : N;
  showExport : bool;
  frameworkLoading : bool;
  frameworkProgress : gmap string bool;
  frameworkSteps : list FrameworkStage
}.

(** The state setters, applied one after the other in the order the handler
    calls them. *)
Definition setMessages (f : list Message -> list Message) (st : AppState) : AppState :=
  mkApp (f (messages st)) (newMessage st) (loading st) (isActive st) (startTime st)
        (showExport st) (frameworkLoading st) (frameworkProgress st) (frameworkSteps st).

Definition setNewMessage (v : string) (st : AppState) : AppState :=
  mkApp (messages st) v (loading st) (isActive st) (startTime st)
        (showExport st) (frameworkLoading st) (frameworkProgress st) (frameworkSteps st).

Definition setLoading (v : bool) (st : AppState) : AppState :=
  mkApp (messages st) (newMessage st) v (isActive st) (startTime st)
        (showExport st) (frameworkLoading st) (frameworkProgress st) (frameworkSteps st).

Definition setFrameworkLoading (v : bool) (st : AppState) : AppState :=
  mkApp (messages st) (newMessage st) (loading st) (isActive st) (startTime st)
        (showExport st) v (frameworkProgress st) (frameworkSteps st).

Definition setFrameworkProgress (v : gmap string bool) (st : AppState) : AppState :=
  mkApp (messages st) (newMessage st) (loading st) (isActive st) (startTime st)
        (showExport st) (frameworkLoading st) v (frameworkSteps st).

Definition setFrameworkSteps (v : list FrameworkStage) (st : AppState) : AppState :=
  mkApp (messages st) (newMessage st) (loading st) (isActive st) (startTime st)
        (showExport st) (frameworkLoading st) (frameworkProgress st) v.

(** [initialProgress]: every loaded stage key mapped to [false]. *)
Definition initialProgress (stages : list FrameworkStage) : gmap string bool :=
  foldl (fun initialProgress step => <[key step := false]> initialProgress) ∅ stages.

(** [loadFrameworkStages] of the component: the [try] branch installs the
    stages and a fresh progress map, the [catch] branch empties both, the
    [finally] branch clears the loading flag. *)
Definition loadFrameworkStages (pin : string)
    (server : FetchOutcome ConfigResponse) (st : AppState) : AppState :=
  let st := setFrameworkLoading true st in
  let st :=
    match chatAPI_loadFrameworkStages pin server with
    | inr stages =>
        let st := setFrameworkSteps stages st in
        setFrameworkProgress (initialProgress stages) st
    | inl error =>
        let st := setFrameworkSteps [] st in
        setFrameworkProgress ∅ st
    end in
  setFrameworkLoading false st.

(** The text of the [catch] branch of [handleSendMessage]. *)
Definition errorMessage_of (error : Thrown) : string :=
  let errorMessage := "Entschuldigung, es gab einen Fehler bei der Verbindung." in
  match error with
  | Error msg =>
      if includes msg "Failed to fetch" then
        errorMessage +:+
          (" Bitte stellen Sie sicher, dass der Backend-Server l" +:+
           String (ascii_of_N 228) "uft (http://localhost:8000).")
      else if includes msg "404" then
        errorMessage +:+
          (" API-Endpoint nicht gefunden. " +:+
           String (ascii_of_N 220) ("berpr" +:+
           String (ascii_of_N 252) "fen Sie die Backend-Konfiguration."))
      else errorMessage
  | NonError => errorMessage
  end.

(** The three readings of [Date.now()] a submit makes: for the user message,
    for a new session id, for the reply or the failure message. *)
Record Clock := mkClock { t_user : N; t_session : N; t_reply : N }.

(** [handleSendMessage], run to completion with nothing else in between.
    The local storage is threaded through because [getSessionId] writes it. *)
Definition handleSendMessage (clock : Clock)
    (server : string -> string -> FetchOutcome ChatResponse)
    (localStorage : gmap string string) (st0 : AppState)
    : AppState * gmap string string :=
  if negb (truthy (trim (newMessage st0))) || loading st0 then (st0, localStorage)
  else
    let userMessage := trim (newMessage st0) in
    let st := setNewMessage "" st0 in
    let st := setLoading true st in
    let userMsg := mkMessage user userMessage (t_user clock) None in
    let st := setMessages (fun prev => prev ++ [userMsg]) st in
    let '(sessionId, localStorage) := getSessionId (t_session clock) localStorage in
    let st :=
      match chatAPI_sendMessage server userMessage sessionId with
      | inr response =>
          let assistantMsg :=
            mkMessage assistant
              (or_else (message response)
                 (or_else (reply response) "Keine Antwort erhalten"))
              (t_reply clock) None in
          let st := setMessages (fun prev => prev ++ [assistantMsg]) st in
          let newProgress :=
            updateFrameworkProgress (content assistantMsg)
              (frameworkSteps st0) (frameworkProgress st0) in
          setFrameworkProgress newProgress st
      | inl error =>
          let errorMsg :=
            mkMessage assistant (errorMessage_of error) (t_reply clock) None in
          setMessages (fun prev => prev ++ [errorMsg]) st
      end in
    (setLoading false st, localStorage).

(** ** What the specification says, in its own words *)

(** [sub] is a substring of [s]. *)
Definition is_substring (sub s : string) : Prop :=
  exists pre post, s = pre +:+ sub +:+ post.

(** Some keyword of the stage, lower-cased, is a substring of the lower-cased
    text. *)
Definition keyword_match (text : string) (stage : FrameworkStage) : Prop :=
  exists keyword, keyword ∈ keywords stage /\
    is_substring (toLowerCase keyword) (toLowerCase text).

(** Some stage of the list carries the key [k] and matches. *)
Definition marks (lower : string) (k : string) (steps : list FrameworkStage) : bool :=
  existsb (fun stage => bool_decide (key stage = k) && found lower stage) steps.

(** The keys of the configured stages. *)
Definition keyset (steps : list FrameworkStage) : gset string :=
  list_to_set (key <$> steps).

(** Every configured stage's progress entry is [true]. *)
Definition all_covered (steps : list FrameworkStage) (progress : gmap string bool) : Prop :=
  forall stage, stage ∈ steps -> progress !! key stage = Some true.





(** A stage without keywords whose key is the decimal numeral of [i]. *)
Definition numbered (i : nat) : FrameworkStage :=
  mkStage (pretty (N.of_nat i)) "" "" "" [].

(** The document as the specification describes it.  [norm] is what is done to
    a text and a key before the key is looked for in the text: nothing in the
    wording of the specification, lower-casing in the source. *)
Section Document.
Variable norm : string -> string.

Definition mentions (step : FrameworkStage) (msg : Message) : Prop :=
  type msg = assistant /\ is_substring (norm (key step)) (norm (content msg)).

Definition mentionsb (step : FrameworkStage) (msg : Message) : bool :=
  is_type assistant msg && includes (norm (content msg)) (norm (key step)).

(** The body of a section: the first assistant message, in history order,
    that mentions the stage, or nothing. *)
Definition section_body (messages : list Message) (step : FrameworkStage) : string :=
  match List.find (mentionsb step) messages with
  | Some msg => content msg +:+ nl +:+ nl
  | None => ""
  end.

(** Header (icon and title), description, body. *)
Definition section_of (messages : list Message) (step : FrameworkStage) : string :=
  "## " +:+ icon step +:+ " " +:+ title step +:+ nl +:+
  description step +:+ nl +:+ nl +:+
  section_body messages step.

Fixpoint sections (messages : list Message) (steps : list FrameworkStage) : string :=
  match steps with
  | [] => ""
  | step :: steps => section_of messages step +:+ sections messages steps
  end.

(** What follows the date up to the first section. *)
Definition after_date (progressPercentage : N) : string :=
  nl +:+ "**Fortschritt:** " +:+ pretty progressPercentage +:+ "%" +:+ nl +:+ nl.

(** The closing lines: the last one counts the user-authored messages. *)
Definition trailer (messages : list Message) : string :=
  "---" +:+ nl +:+ nl +:+
  "**Generiert durch Design Thinking Coach v1.0**" +:+ nl +:+
  "**Session-Nachrichten:** " +:+
  pretty (N.of_nat (length (List.filter (is_type user) messages))) +:+ nl.

(** Everything after the date. *)
Definition rest_of_document (messages : list Message)
    (steps : list FrameworkStage) (progress : gmap string bool)
    (progressPercentage : N) : string :=
  after_date progressPercentage +:+
  sections messages (List.filter (covered progress) steps) +:+
  trailer messages.
End Document.

(** The date line starts at a fixed position. *)
Definition before_date : string :=
  "# Design Thinking Analyse" +:+ nl +:+ nl +:+ "**Datum:** ".

(** The claim of the specification about the export, as it is worded: the
    body of a section is the first assistant message whose text contains the
    stage's key. *)
Definition export_claim (today : string) (messages : list Message)
    (steps : list FrameworkStage) (progress : gmap string bool) (pct : N) : Prop :=
  generateStructuredOutput today messages steps progress pct =
  before_date +:+ today +:+
  rest_of_document (fun text => text) messages steps progress pct.

(** The claim of the specification about a failed reload, as it is worded:
    the stage list read afterwards is the one loaded before. *)
Definition reload_claim (pin : string) (server : FetchOutcome ConfigResponse)
    (st : AppState) : Prop :=
  forall error, chatAPI_loadFrameworkStages pin server = inl error ->
    frameworkSteps (loadFrameworkStages pin server st) = frameworkSteps st.

(** ** utils.ts: time formatting *)

(** [s.padStart(n, c)] for a one-character filler [c]. *)
Definition padStart (n : nat) (c : ascii) (s : string) : string :=
  String.concat "" (replicate (n - String.length s) (String c "")) +:+ s.

(** [formatDuration(startTime)] at the clock reading [now].  The difference may
    be negative; [%] is the remainder that takes the sign of the dividend and
    [Math.floor] rounds down.  The two quotients are taken exactly. *)
Definition formatDuration (now startTime : N) : string :=
  let duration := (Z.of_N now - Z.of_N startTime)%Z in
  let minutes := (duration / 60000)%Z in
  let seconds := (Z.rem duration 60000 / 1000)%Z in
  pretty minutes +:+ ":" +:+ padStart 2 "0" (pretty seconds).

(** ** App.tsx: the other handlers *)

(** [messageCount], the number the header shows. *)
Definition messageCount (messages : list Message) : nat :=
  length (List.filter (is_type user) messages).

Definition setShowExport (v : bool) (st : AppState) : AppState :=
  mkApp (messages st) (newMessage st) (loading st) (isActive st) (startTime st)
        v (frameworkLoading st) (frameworkProgress st) (frameworkSteps st).

(** The state of the first render, [startTime] being the clock then. *)
Definition initialState (startTime : N) : AppState :=
  mkApp [] "" false true startTime false true ∅ [].

(** The pictographs that open the notices of the handlers: like the pushpin
    they lie outside the modelled code units. *)
Record Emoji := mkEmoji {
  emoji_reset : string;
  emoji_save : string;
  emoji_ok : string;
  emoji_fail : string;
  emoji_summary : string
}.

(** What a handler asks of the browser besides a state change. *)
Inductive Effect :=
  | DownloadSession (messages : list Message)
      (frameworkProgress : gmap string bool) (progressPercentage : N).

(** [handleExecuteCommand] at the clock reading [now]. *)
Definition handleExecuteCommand (e : Emoji) (now : N) (command : string)
    (st0 : AppState) : AppState * list Effect :=
  if String.eqb command "/reset" then
    let st := setMessages (fun _ => []) st0 in
    let resetProgress :=
      foldl (fun resetProgress step => <[key step := false]> resetProgress)
        ∅ (frameworkSteps st0) in
    let st := setFrameworkProgress resetProgress st in
    let systemMsg :=
      mkMessage system
        (emoji_reset e +:+ " Session wurde zur" +:+
         String (ascii_of_N 252) "ckgesetzt.") now None in
    (setMessages (fun _ => [systemMsg]) st, [])
  else if String.eqb command "/save" then
    let download :=
      DownloadSession (messages st0) (frameworkProgress st0)
        (progressPercentage (frameworkSteps st0) (frameworkProgress st0)) in
    let systemMsg :=
      mkMessage system
        (emoji_save e +:+ " Session wurde als JSON-Datei gespeichert.") now None in
    (setMessages (fun prev => prev ++ [systemMsg]) st0, [download])
  else if String.eqb command "/export" then
    (setShowExport true st0, [])
  else (st0, []).

(** What [await loadFrameworkStages()] gives its caller: the function catches
    every failure itself, so the promise always resolves. *)
Definition loadFrameworkStages_settled (pin : string)
    (server : FetchOutcome ConfigResponse) (st : AppState) : Thrown + AppState :=
  inr (loadFrameworkStages pin server st).

Definition handleReloadFramework (e : Emoji) (pin : string)
    (server : FetchOutcome ConfigResponse) (now : N) (st0 : AppState) : AppState :=
  match loadFrameworkStages_settled pin server st0 with
  | inr st =>
      let systemMsg :=
        mkMessage system
          (emoji_ok e +:+ " Framework-Stufen wurden neu geladen.") now None in
      setMessages (fun prev => prev ++ [systemMsg]) st
  | inl error =>
      let systemMsg :=
        mkMessage system
          (emoji_fail e +:+ " Fehler beim Neuladen der Framework-Stufen.") now None in
      setMessages (fun prev => prev ++ [systemMsg]) st0
  end.

(** [l.join(sep)] *)
Fixpoint join (sep : string) (l : list string) : string :=
  match l with
  | [] => ""
  | [x] => x
  | x :: rest => x +:+ sep +:+ join sep rest
  end.

(** The request of [handleGenerateStructuredSummary]. *)
Definition summaryPrompt_of (completedSteps : list FrameworkStage) : string :=
  "Bitte erstellen Sie eine strukturierte Zusammenfassung basierend auf unserem Design Thinking Prozess. Ber" +:+
  String (ascii_of_N 252) "cksichtigen Sie dabei alle Framework-Stufen, die wir durchlaufen haben:" +:+
  nl +:+ nl +:+
  join nl (map (fun step =>
    "- " +:+ icon step +:+ " " +:+ title step +:+ ": " +:+ description step)
    completedSteps) +:+
  nl +:+ nl +:+
  "Erstellen Sie eine detaillierte Analyse mit folgenden Abschnitten:" +:+ nl +:+
  "1. Problem" +:+ String (ascii_of_N 252) "bersicht" +:+ nl +:+
  "2. Ursachenanalyse" +:+ nl +:+
  "3. L" +:+ String (ascii_of_N 246) "sungsans" +:+ String (ascii_of_N 228) "tze" +:+ nl +:+
  "4. Zielgruppen" +:+ nl +:+
  "5. Implementierungsplan" +:+ nl +:+
  "6. Erfolgsmessung" +:+ nl +:+ nl +:+
  "Nutzen Sie alle relevanten Informationen aus unserem Gespr" +:+
  String (ascii_of_N 228) "ch und strukturieren Sie diese in einem professionellen Format.".

(** [a || b] as a value: [b], possibly [undefined], when [a] is absent or
    empty; and how a template literal prints it. *)
Definition or_value (a b : option string) : option string :=
  match a with
  | Some s => if truthy s then Some s else b
  | None => b
  end.

Definition interpolate (v : option string) : string :=
  match v with
  | Some s => s
  | None => "undefined"
  end.

(** [handleGenerateStructuredSummary], run to completion.  It reads the clock
    for a new session id and for the message it appends. *)
Definition handleGenerateStructuredSummary (e : Emoji) (clock : Clock)
    (server : string -> string -> FetchOutcome ChatResponse)
    (localStorage : gmap string string) (st0 : AppState)
    : AppState * gmap string string :=
  if progressPercentage (frameworkSteps st0) (frameworkProgress st0) <? 100
  then (st0, localStorage)
  else
    let st := setLoading true st0 in
    let completedSteps :=
      List.filter (covered (frameworkProgress st0)) (frameworkSteps st0) in
    let summaryPrompt := summaryPrompt_of completedSteps in
    let '(sessionId, localStorage) := getSessionId (t_session clock) localStorage in
    let st :=
      match chatAPI_sendMessage server summaryPrompt sessionId with
      | inr response =>
          let summaryMsg :=
            mkMessage assistant
              ("## " +:+ emoji_summary e +:+
               " Strukturierte Design Thinking Zusammenfassung" +:+ nl +:+ nl +:+
               interpolate (or_value (message response) (reply response)))
              (t_reply clock) (Some true) in
          setMessages (fun prev => prev ++ [summaryMsg]) st
      | inl error =>
          let errorMsg :=
            mkMessage assistant
              (emoji_fail e +:+
               " Fehler bei der Erstellung der strukturierten Zusammenfassung. Bitte versuchen Sie es erneut.")
              (t_reply clock) None in
          setMessages (fun prev => prev ++ [errorMsg]) st
      end in
    (setLoading false st, localStorage).

(** [handleSendMessage] as a closure: what it reads ([newMessage], [loading],
    the stage list, the progress map) is the state of the render that made
    it, [closure]; what it sets goes to the state of the moment, [current]. *)
Definition handleSendMessage_in (closure : AppState) (clock : Clock)
    (server : string -> string -> FetchOutcome ChatResponse)
    (localStorage : gmap string string) (current : AppState)
    : AppState * gmap string string :=
  if negb (truthy (trim (newMessage closure))) || loading closure
  then (current, localStorage)
  else
    let userMessage := trim (newMessage closure) in
    let st := setNewMessage "" current in
    let st := setLoading true st in
    let userMsg := mkMessage user userMessage (t_user clock) None in
    let st := setMessages (fun prev => prev ++ [userMsg]) st in
    let '(sessionId, localStorage) := getSessionId (t_session clock) localStorage in
    let st :=
      match chatAPI_sendMessage server userMessage sessionId with
      | inr response =>
          let assistantMsg :=
            mkMessage assistant
              (or_else (message response)
                 (or_else (reply response) "Keine Antwort erhalten"))
              (t_reply clock) None in
          let st := setMessages (fun prev => prev ++ [assistantMsg]) st in
          let newProgress :=
            updateFrameworkProgress (content assistantMsg)
              (frameworkSteps closure) (frameworkProgress closure) in
          setFrameworkProgress newProgress st
      | inl error =>
          let errorMsg :=
            mkMessage assistant (errorMessage_of error) (t_reply clock) None in
          setMessages (fun prev => prev ++ [errorMsg]) st
      end in
    (setLoading false st, localStorage).

(** [handleSendExampleMessage]: the question goes to the input box, and the
    send that the timer then starts is the closure of the render before. *)
Definition handleSendExampleMessage (clock : Clock)
    (server : string -> string -> FetchOutcome ChatResponse)
    (localStorage : gmap string string) (question : string) (st0 : AppState)
    : AppState * gmap string string :=
  let st := setNewMessage question st0 in
  handleSendMessage_in st0 clock server localStorage st.

(** What can happen to the component, one thing at a time. *)
Inductive Event :=
  | MessageChange (text : string)
  | SendMessage (clock : Clock)
      (server : string -> string -> FetchOutcome ChatResponse)
  | SendExampleMessage (clock : Clock)
      (server : string -> string -> FetchOutcome ChatResponse) (question : string)
  | ExecuteCommand (now : N) (command : string)
  | LoadFramework (server : FetchOutcome ConfigResponse)
  | ReloadFramework (server : FetchOutcome ConfigResponse) (now : N)
  | GenerateSummary (clock : Clock)
      (server : string -> string -> FetchOutcome ChatResponse)
  | CloseExport.

(** The component and the local storage after an event. *)
Definition handle (e : Emoji) (pin : string) (world : AppState * gmap string string)
    (event : Event) : AppState * gmap string string :=
  let '(st, localStorage) := world in
  match event with
  | MessageChange text => (setNewMessage text st, localStorage)
  | SendMessage clock server => handleSendMessage clock server localStorage st
  | SendExampleMessage clock server question =>
      handleSendExampleMessage clock server localStorage question st
  | ExecuteCommand now command =>
      ((handleExecuteCommand e now command st).1, localStorage)
  | LoadFramework server => (loadFrameworkStages pin server st, localStorage)
  | ReloadFramework server now =>
      (handleReloadFramework e pin server now st, localStorage)
  | GenerateSummary clock server =>
      handleGenerateStructuredSummary e clock server localStorage st
  | CloseExport => (setShowExport false st, localStorage)
  end.

Definition run (e : Emoji) (pin : string) (events : list Event)
    (world : AppState * gmap string string) : AppState * gmap string string :=
  foldl (handle e pin) world events.

(** The progress map speaks of configured stages only. *)
Definition progress_within_stages (st : AppState) : Prop :=
  dom (frameworkProgress st) ⊆ keyset (frameworkSteps st).

(** A string of white space only. *)
Fixpoint all_space (s : string) : bool :=
  match s with
  | EmptyString => true
  | String c s' => is_space c && all_space s'
  end.

(** The last character of a non-empty string. *)
Fixpoint last_char (s : string) : option ascii :=
  match s with
  | EmptyString => None
  | String c EmptyString => Some c
  | String _ s' => last_char s'
  end.

Definition first_char (s : string) : option ascii :=
  match s with
  | EmptyString => None
  | String c _ => Some c
  end.

(** Every character of the string passes the test. *)
Fixpoint every (test : ascii -> bool) (s : string) : bool :=
  match s with
  | EmptyString => true
  | String c s' => test c && every test s'
  end.

Definition is_digit (c : ascii) : bool :=
  (48 <=? N_of_ascii c) && (N_of_ascii c <=? 57).

(** The three texts [handleSendMessage] can show for a failure. *)
Definition apology : string :=
  "Entschuldigung, es gab einen Fehler bei der Verbindung.".

Definition backend_hint : string :=
  " Bitte stellen Sie sicher, dass der Backend-Server l" +:+
  String (ascii_of_N 228) "uft (http://localhost:8000).".

Definition endpoint_hint : string :=
  " API-Endpoint nicht gefunden. " +:+
  String (ascii_of_N 220) ("berpr" +:+
  String (ascii_of_N 252) "fen Sie die Backend-Konfiguration.").

(** The two decimal digits of a number below 100. *)
Definition two_digits (n : N) : string :=
  String (ascii_of_N (48 + n / 10)) (String (ascii_of_N (48 + n mod 10)) "").


(** The guard of [handleSendMessage]: the input is not blank and no request
    is pending. *)
Definition can_send (st : AppState) : Prop :=
  all_space (newMessage st) = false /\ loading st = false.

(** The text of the assistant message a send ends with: the reply, or the
    failure text. *)
Definition answer_text (outcome : Thrown + ChatResponse) : string :=
  match outcome with
  | inr response =>
      or_else (message response)
        (or_else (reply response) "Keine Antwort erhalten")
  | inl error => errorMessage_of error
  end.

(** * Strings *)

Lemma append_cons (c : ascii) (a b : string) :
  String c a +:+ b = String c (a +:+ b).
Proof. reflexivity. Qed.

Lemma append_nil_r (s : string) : s +:+ "" = s.
Proof.
  induction s as [|c s IH]; [reflexivity|].
  now rewrite append_cons, IH.
Qed.

Lemma append_assoc (a b c : string) : (a +:+ b) +:+ c = a +:+ (b +:+ c).
Proof.
  induction a as [|x a IH]; [reflexivity|].
  now rewrite !append_cons, IH.
Qed.

Lemma prefix_spec (sub s : string) :
  String.prefix sub s = true <-> exists post, s = sub +:+ post.
Proof.
  revert s. induction sub as [|c sub IH]; intros s.
  - split; [intros _; now exists s | intros _; now destruct s].
  - destruct s as [|d s]; simpl.
    + split; [discriminate | intros [post H]; discriminate].
    + destruct (ascii_dec c d) as [->|Hne].
      * rewrite IH. split; intros [post H]; exists post.
        -- rewrite append_cons. congruence.
        -- rewrite append_cons in H. congruence.
      * split; [discriminate | intros [post H]].
        rewrite append_cons in H. congruence.
Qed.

Lemma includes_unfold (s sub : string) :
  includes s sub =
  if String.prefix sub s then true
  else match s with
       | EmptyString => false
       | String _ s' => includes s' sub
       end.
Proof. destruct s; reflexivity. Qed.

Lemma includes_here (s sub post : string) :
  s = sub +:+ post -> includes s sub = true.
Proof.
  intros H. assert (String.prefix sub s = true) as Hp
    by (apply prefix_spec; now exists post).
  now rewrite includes_unfold, Hp.
Qed.

Lemma includes_spec (s sub : string) :
  includes s sub = true <-> is_substring sub s.
Proof.
  unfold is_substring. split.
  - induction s as [|c s IH]; rewrite includes_unfold;
      destruct (String.prefix sub _) eqn:Hp; try discriminate.
    + apply prefix_spec in Hp as [post Hp]. intros _. now exists "", post.
    + apply prefix_spec in Hp as [post Hp]. intros _. now exists "", post.
    + intros H. destruct (IH H) as (pre & post & ->).
      now exists (String c pre), post.
  - intros (pre & post & ->). induction pre as [|x pre IH].
    + now apply includes_here with post.
    + rewrite append_cons, includes_unfold.
      destruct (String.prefix sub _); [reflexivity | exact IH].
Qed.

(** * The progress tracker *)

Lemma found_spec (text : string) (stage : FrameworkStage) :
  found (toLowerCase text) stage = true <-> keyword_match text stage.
Proof.
  unfold found, keyword_match. rewrite existsb_exists. split.
  - intros (kw & Hin & Hinc). exists kw. split.
    + now apply list_elem_of_In.
    + now apply includes_spec.
  - intros (kw & Hin & Hsub). exists kw. split.
    + now apply list_elem_of_In.
    + now apply includes_spec.
Qed.

(** The whole loop, read entry by entry. *)
Lemma foldl_markStage_lookup (lower : string) (steps : list FrameworkStage) :
  forall (m : gmap string bool) (k : string),
    foldl (markStage lower) m steps !! k =
    if marks lower k steps then Some true else m !! k.
Proof.
  induction steps as [|stage steps IH]; intros m k; simpl; [reflexivity|].
  rewrite IH. unfold markStage.
  destruct (marks lower k steps); simpl.
  - now rewrite orb_true_r.
  - rewrite orb_false_r. destruct (found lower stage); simpl.
    + rewrite andb_true_r. case_bool_decide as Hk.
      * subst k. apply lookup_insert_eq.
      * now apply lookup_insert_ne.
    + now rewrite andb_false_r.
Qed.

Lemma marks_true (lower k : string) (steps : list FrameworkStage) :
  marks lower k steps = true <->
  exists stage, stage ∈ steps /\ key stage = k /\ found lower stage = true.
Proof.
  unfold marks. rewrite existsb_exists. split.
  - intros (stage & Hin & H). apply andb_true_iff in H as [Hk Hf].
    apply bool_decide_eq_true in Hk. exists stage.
    split; [now apply list_elem_of_In | easy].
  - intros (stage & Hin & Hk & Hf). exists stage.
    split; [now apply list_elem_of_In|].
    apply andb_true_iff. split; [now apply bool_decide_eq_true | easy].
Qed.

Lemma update_lookup (text : string) (steps : list FrameworkStage)
    (progress : gmap string bool) (k : string) :
  updateFrameworkProgress text steps progress !! k =
  if marks (toLowerCase text) k steps then Some true else progress !! k.
Proof. apply foldl_markStage_lookup. Qed.

(** C1. Progress is monotonic: an entry that is [true] before the update is
    [true] after it, for every stage list and every assistant text; so a
    second update, with any text and any stage list, leaves it covered too. *)
Theorem updateFrameworkProgress_monotonic
    (text : string) (steps : list FrameworkStage)
    (progress : gmap string bool) (k : string) :
  progress !! k = Some true ->
  updateFrameworkProgress text steps progress !! k = Some true /\
  forall text' steps',
    updateFrameworkProgress text' steps'
      (updateFrameworkProgress text steps progress) !! k = Some true.
Proof.
  intros Hk.
  assert (forall t s (p : gmap string bool), p !! k = Some true ->
            updateFrameworkProgress t s p !! k = Some true) as mono.
  { intros t s p Hp. rewrite update_lookup. now destruct (marks _ k s). }
  split; [now apply mono | intros; now apply mono, mono].
Qed.

Lemma updateFrameworkProgress_monotonic_witness :
  ({["problem" := true]} : gmap string bool) !! "problem" = Some true /\
  updateFrameworkProgress "Nothing to report"
    [mkStage "problem" "Problem" "What is wrong" "P" ["problem"; "issue"]]
    {["problem" := true]} !! "problem" = Some true.
Proof.
  split; [reflexivity|].
  apply (updateFrameworkProgress_monotonic "Nothing to report"
           [mkStage "problem" "Problem" "What is wrong" "P" ["problem"; "issue"]]
           {["problem" := true]} "problem").
  reflexivity.
Defined.

Lemma update_marks_match (text : string) (steps : list FrameworkStage)
    (progress : gmap string bool) (stage : FrameworkStage) :
  stage ∈ steps -> keyword_match text stage ->
  updateFrameworkProgress text steps progress !! key stage = Some true.
Proof.
  intros Hin Hm. rewrite update_lookup.
  assert (marks (toLowerCase text) (key stage) steps = true) as ->; [|reflexivity].
  apply marks_true. exists stage. repeat split; [assumption|].
  now apply found_spec.
Qed.

Lemma update_keeps_unmatched (text : string) (steps : list FrameworkStage)
    (progress : gmap string bool) (k : string) :
  (forall stage, stage ∈ steps -> key stage = k -> ~ keyword_match text stage) ->
  updateFrameworkProgress text steps progress !! k = progress !! k.
Proof.
  intros Hno. rewrite update_lookup.
  destruct (marks (toLowerCase text) k steps) eqn:Hm; [|reflexivity].
  apply marks_true in Hm as (stage & Hin & Hk & Hf).
  apply found_spec in Hf. now destruct (Hno stage Hin Hk).
Qed.

Lemma count_true_singleton (k : string) :
  count_true {[k := true]} = 1.
Proof. unfold count_true. now rewrite map_to_list_singleton. Qed.

(** C2. The update sets an entry to [true] exactly on a keyword match: the
    entry of every stage with a keyword that, lower-cased, is a substring of
    the lower-cased text is [true] afterwards, and an entry whose stages have
    no such keyword keeps the value it had.  Scenario A: with the one stage
    "problem" (keywords "problem", "issue") and the reply
    "I see the core problem here", the entry becomes [true] and the
    percentage is 100, computed exactly or in doubles. *)
Theorem updateFrameworkProgress_marks_exactly_on_keyword_match :
  (forall (text : string) (steps : list FrameworkStage) (progress : gmap string bool),
     (forall stage, stage ∈ steps -> keyword_match text stage ->
        updateFrameworkProgress text steps progress !! key stage = Some true) /\
     (forall k,
        (forall stage, stage ∈ steps -> key stage = k -> ~ keyword_match text stage) ->
        updateFrameworkProgress text steps progress !! k = progress !! k)) /\
  (forall (ttl desc ico : string) (progress : gmap string bool),
     dom progress ⊆ ({["problem"]} : gset string) ->
     let stage := mkStage "problem" ttl desc ico ["problem"; "issue"] in
     let progress' :=
       updateFrameworkProgress "I see the core problem here" [stage] progress in
     progress' !! "problem" = Some true /\
     progressPercentage [stage] progress' = 100 /\
     progressPercentage_binary64 [stage] progress' = Some 100%Z).
Proof.
  split.
  - intros text steps progress. split.
    + intros stage. apply update_marks_match.
    + intros k. apply update_keeps_unmatched.
  - intros ttl desc ico progress Hdom stage progress'.
    assert (progress' = {["problem" := true]}) as ->.
    { apply map_eq. intros k. unfold progress'. rewrite update_lookup.
      destruct (decide (k = "problem")) as [->|Hne].
      - now rewrite lookup_singleton_eq.
      - rewrite lookup_singleton_ne by congruence.
        assert (marks (toLowerCase "I see the core problem here") k [stage] = false) as ->.
        { simpl. rewrite bool_decide_eq_false_2 by congruence. reflexivity. }
        apply not_elem_of_dom. intros Hk. apply Hdom in Hk.
        apply elem_of_singleton in Hk. congruence. }
    split; [apply lookup_singleton_eq|].
    unfold progressPercentage, progressPercentage_binary64. simpl.
    rewrite count_true_singleton. split; vm_compute; reflexivity.
Qed.

(** C5. Applying the update twice with the same text and stage list gives the
    map the first application gave: nothing the first application marked is
    unmarked, the marked entries are the same, and they include every entry
    that was marked to begin with. *)
Theorem updateFrameworkProgress_idempotent
    (text : string) (steps : list FrameworkStage) (progress : gmap string bool) :
  let once := updateFrameworkProgress text steps progress in
  let twice := updateFrameworkProgress text steps once in
  twice = once /\
  (forall k, once !! k = Some true <-> twice !! k = Some true) /\
  (forall k, progress !! k = Some true -> once !! k = Some true).
Proof.
  intros once twice.
  assert (twice = once) as Heq.
  { apply map_eq. intros k. unfold twice, once. rewrite !update_lookup.
    now destruct (marks (toLowerCase text) k steps). }
  split; [exact Heq|]. split.
  - intros k. now rewrite Heq.
  - intros k Hk. unfold once. rewrite update_lookup.
    now destruct (marks (toLowerCase text) k steps).
Qed.

(** C9. Keyword edge cases.  A stage with no keywords marks nothing: updating
    with that stage alone returns the map unchanged, and in a longer list its
    entry keeps its value as long as no other stage shares its key.  A stage
    with the empty string among its keywords is marked by every text, the
    empty text included. *)
Theorem updateFrameworkProgress_keyword_edge_cases
    (text : string) (progress : gmap string bool) :
  (forall stage, keywords stage = [] ->
     updateFrameworkProgress text [stage] progress = progress) /\
  (forall steps stage, stage ∈ steps -> keywords stage = [] ->
     (forall other, other ∈ steps -> key other = key stage -> other = stage) ->
     updateFrameworkProgress text steps progress !! key stage = progress !! key stage) /\
  (forall steps stage, stage ∈ steps -> "" ∈ keywords stage ->
     updateFrameworkProgress text steps progress !! key stage = Some true /\
     updateFrameworkProgress "" steps progress !! key stage = Some true).
Proof.
  split; [|split].
  - intros stage Hk. unfold updateFrameworkProgress, markStage, found. simpl.
    now rewrite Hk.
  - intros steps stage Hin Hk Huniq. apply update_keeps_unmatched.
    intros other Hother Hkey (kw & Hkw & _).
    rewrite (Huniq other Hother Hkey), Hk in Hkw. now apply elem_of_nil in Hkw.
  - intros steps stage Hin Hkw.
    assert (forall t, keyword_match t stage) as Hm.
    { intros t. exists "". split; [assumption|]. now exists "", (toLowerCase t). }
    split; now apply update_marks_match.
Qed.

(** * The progress percentage *)

Section Percentage.
Variable steps : list FrameworkStage.
Variable progress : gmap string bool.

Let values : list bool := (map_to_list progress).*2.


Lemma elem_of_values (v : bool) :
  v ∈ values <-> exists k, progress !! k = Some v.
Proof.
  unfold values. rewrite list_elem_of_fmap. split.
  - intros ([k w] & -> & Hin). exists k. now apply elem_of_map_to_list.
  - intros (k & Hk). exists (k, v). split; [reflexivity|].
    now apply elem_of_map_to_list.
Qed.




Lemma elem_of_keyset (k : string) :
  k ∈ keyset steps <-> exists stage, stage ∈ steps /\ key stage = k.
Proof.
  unfold keyset. rewrite elem_of_list_to_set, list_elem_of_fmap.
  split; intros (stage & H1 & H2); exists stage; easy.
Qed.

Hypothesis keys_distinct : NoDup (key <$> steps).
Hypothesis keys_configured : dom progress ⊆ keyset steps.




End Percentage.






(** With 40 stages they are not: 23 of 40 is 57.5 exactly and
    57.49999999999999 in doubles. *)
Example round_percent_binary64_differs :
  round_percent_binary64 23 40 = Some 57%Z /\ round_percent 23 40 = 58.
Proof. split; vm_compute; reflexivity. Qed.






(** Two stages sharing a key: every stage's entry is [true] at 50. *)
Example percentage_duplicate_keys :
  let steps := [mkStage "a" "A" "first" "1" ["a"]; mkStage "a" "B" "second" "2" ["b"]] in
  let progress : gmap string bool := {["a" := true]} in
  all_covered steps progress /\ progressPercentage steps progress = 50.
Proof.
  split; [|vm_compute; reflexivity].
  intros stage Hin. repeat (apply elem_of_cons in Hin as [->|Hin]; [reflexivity|]).
  now apply elem_of_nil in Hin.
Qed.

(** No stage at all: every stage's entry is [true], vacuously, at 0. *)
Example percentage_no_stage :
  all_covered [] ∅ /\ progressPercentage [] ∅ = 0.
Proof.
  split; [|reflexivity]. intros stage Hin. now apply elem_of_nil in Hin.
Qed.

(** Two hundred stages, all but one covered: 99.5 is rounded to 100, exactly
    and in doubles. *)
Example percentage_rounds_up_to_100 :
  let steps := numbered <$> seq 0 200 in
  let progress : gmap string bool :=
    <["0" := false]> (list_to_map ((fun stage => (key stage, true)) <$> steps)) in
  NoDup (key <$> steps) /\
  dom progress ⊆ keyset steps /\
  progress !! key (numbered 0) = Some false /\
  progressPercentage steps progress = 100 /\
  progressPercentage_binary64 steps progress = Some 100%Z.
Proof.
  cbv zeta. split; [|split; [|split; [|split]]].
  - apply (bool_decide_unpack _). vm_compute. reflexivity.
  - apply (bool_decide_unpack _). vm_compute. reflexivity.
  - vm_compute. reflexivity.
  - vm_compute. reflexivity.
  - vm_compute. reflexivity.
Qed.



(** * The export generator *)

Section DocumentFacts.
Variable norm : string -> string.

Lemma mentionsb_spec (step : FrameworkStage) (msg : Message) :
  mentionsb norm step msg = true <-> mentions norm step msg.
Proof.
  unfold mentionsb, mentions, is_type.
  now rewrite andb_true_iff, bool_decide_eq_true, includes_spec.
Qed.

Lemma section_body_first (messages before after : list Message)
    (step : FrameworkStage) (msg : Message) :
  messages = before ++ msg :: after ->
  mentions norm step msg ->
  (forall m, m ∈ before -> ~ mentions norm step m) ->
  section_body norm messages step = content msg +:+ nl +:+ nl.
Proof.
  intros -> Hmsg Hbefore. unfold section_body.
  induction before as [|m before IH]; simpl.
  - apply mentionsb_spec in Hmsg. now rewrite Hmsg.
  - destruct (mentionsb norm step m) eqn:Hm.
    + apply mentionsb_spec in Hm. destruct (Hbefore m); [|assumption].
      now apply elem_of_cons; left.
    + apply IH. intros m' Hin. apply Hbefore. now apply elem_of_cons; right.
Qed.

Lemma section_body_none (messages : list Message) (step : FrameworkStage) :
  (forall m, m ∈ messages -> ~ mentions norm step m) ->
  section_body norm messages step = "".
Proof.
  intros Hnone. unfold section_body.
  destruct (List.find (mentionsb norm step) messages) as [m|] eqn:Hf; [|reflexivity].
  apply find_some in Hf as [Hin Hm]. apply mentionsb_spec in Hm.
  destruct (Hnone m); [|assumption]. now apply list_elem_of_In.
Qed.
End DocumentFacts.

Lemma filter_head_find {A B : Type} (f : A -> bool) (g : A -> B) (d : B) (l : list A) :
  match List.filter f l with x :: _ => g x | [] => d end =
  match List.find f l with Some x => g x | None => d end.
Proof.
  induction l as [|a l IH]; simpl; [reflexivity|].
  now destruct (f a).
Qed.

Lemma appendStep_section (messages : list Message) (output : string)
    (step : FrameworkStage) :
  appendStep messages output step =
  output +:+ section_of toLowerCase messages step.
Proof.
  unfold appendStep, section_of, section_body. cbv zeta.
  change (relevant step) with (mentionsb toLowerCase step).
  rewrite (filter_head_find (mentionsb toLowerCase step)
             (fun first => _ +:+ (content first +:+ nl +:+ nl))).
  destruct (List.find (mentionsb toLowerCase step) messages) as [first|].
  - now rewrite !append_assoc.
  - now rewrite !append_assoc, append_nil_r.
Qed.

Lemma foldl_appendStep (messages : list Message) (steps : list FrameworkStage) :
  forall output,
    foldl (appendStep messages) output steps =
    output +:+ sections toLowerCase messages steps.
Proof.
  induction steps as [|step steps IH]; intros output; simpl.
  - now rewrite append_nil_r.
  - now rewrite IH, appendStep_section, append_assoc.
Qed.

Lemma generateStructuredOutput_layout (today : string) (messages : list Message)
    (steps : list FrameworkStage) (progress : gmap string bool) (pct : N) :
  generateStructuredOutput today messages steps progress pct =
  before_date +:+ today +:+ rest_of_document toLowerCase messages steps progress pct.
Proof.
  unfold generateStructuredOutput, rest_of_document, before_date, after_date, trailer.
  cbv zeta. rewrite foldl_appendStep. now rewrite !append_assoc.
Qed.

Lemma filter_sublist {A : Type} (f : A -> bool) (l : list A) :
  sublist (List.filter f l) l.
Proof.
  induction l as [|a l IH]; simpl; [constructor|].
  destruct (f a); now constructor.
Qed.

Lemma covered_steps (progress : gmap string bool) (steps : list FrameworkStage)
    (step : FrameworkStage) :
  step ∈ List.filter (covered progress) steps <->
  step ∈ steps /\ progress !! key step = Some true.
Proof.
  rewrite !list_elem_of_In, filter_In. unfold covered.
  now rewrite bool_decide_eq_true.
Qed.

(** C4, as worded, fails: the key "problem" does not occur in
    "The PROBLEM is clear", yet the export prints that message under the
    stage, because the source compares lower-cased texts. *)
Lemma export_claim_fails :
  let stage := mkStage "problem" "Problem" "What is wrong" "P" ["problem"; "issue"] in
  let history := [mkMessage assistant "The PROBLEM is clear" 1 None] in
  section_body (fun text => text) history stage = "" /\
  section_body toLowerCase history stage = "The PROBLEM is clear" +:+ nl +:+ nl /\
  ~ export_claim "3.11.2026" history [stage] {["problem" := true]} 100.
Proof.
  cbv zeta. split; [reflexivity|]. split; [reflexivity|].
  unfold export_claim. intros H. vm_compute in H. discriminate H.
Qed.

(** C4, amended.  The export is the date header, then one section for each
    stage whose progress entry is [true] and for no other, in the order of
    the stage list whatever the order of the messages, then the closing
    lines, the last of which counts the user-authored messages.  A section is
    a header (icon and title), the description, and the content of the first
    assistant message in history order whose lower-cased text contains the
    lower-cased stage key; when there is none the body is empty and the
    header and the description are still there. *)
Theorem generateStructuredOutput_sections
    (today : string) (messages : list Message)
    (steps : list FrameworkStage) (progress : gmap string bool) (pct : N) :
  let completed := List.filter (covered progress) steps in
  generateStructuredOutput today messages steps progress pct =
    before_date +:+ today +:+ after_date pct +:+
    sections toLowerCase messages completed +:+ trailer messages /\
  sublist completed steps /\
  (forall step, step ∈ completed <->
     step ∈ steps /\ progress !! key step = Some true) /\
  (forall step before msg after,
     messages = before ++ msg :: after ->
     mentions toLowerCase step msg ->
     (forall m, m ∈ before -> ~ mentions toLowerCase step m) ->
     section_body toLowerCase messages step = content msg +:+ nl +:+ nl) /\
  (forall step,
     (forall m, m ∈ messages -> ~ mentions toLowerCase step m) ->
     section_body toLowerCase messages step = "").
Proof.
  intros completed. split; [|split; [|split; [|split]]].
  - now rewrite generateStructuredOutput_layout.
  - apply filter_sublist.
  - intros step. apply covered_steps.
  - intros step before msg after. apply section_body_first.
  - intros step. apply section_body_none.
Qed.

(** C8. The export is a function of its inputs and of the date: the date sits
    right after a fixed prefix, and what follows it does not depend on the
    clock.  Two runs on the same history, stage list, progress map and
    percentage differ in the date at most. *)
Theorem generateStructuredOutput_deterministic
    (messages : list Message) (steps : list FrameworkStage)
    (progress : gmap string bool) (pct : N) :
  exists rest, forall today1 today2,
    generateStructuredOutput today1 messages steps progress pct =
      before_date +:+ today1 +:+ rest /\
    generateStructuredOutput today2 messages steps progress pct =
      before_date +:+ today2 +:+ rest /\
    (today1 = today2 ->
     generateStructuredOutput today1 messages steps progress pct =
     generateStructuredOutput today2 messages steps progress pct).
Proof.
  exists (rest_of_document toLowerCase messages steps progress pct).
  intros today1 today2. rewrite !generateStructuredOutput_layout.
  split; [reflexivity|]. split; [reflexivity|]. now intros ->.
Qed.

(** * The session id *)

Lemma getSessionId_stored (now : N) (localStorage : gmap string string)
    (stored : string) :
  localStorage !! "dt-session-id" = Some stored -> truthy stored = true ->
  getSessionId now localStorage = (stored, localStorage).
Proof. intros Hs Ht. unfold getSessionId. now rewrite Hs, Ht. Qed.

Lemma getSessionId_stores (now : N) (localStorage : gmap string string) :
  let r := getSessionId now localStorage in
  r.2 !! "dt-session-id" = Some r.1 /\ truthy r.1 = true.
Proof.
  unfold getSessionId.
  destruct (localStorage !! "dt-session-id") as [stored|] eqn:Hs.
  - destruct (truthy stored) eqn:Ht; simpl.
    + easy.
    + now rewrite lookup_insert_eq.
  - simpl. now rewrite lookup_insert_eq.
Qed.

(** C10. Two successive calls of [getSessionId] return the same id.  The first
    call returns the stored id when there is one, and otherwise makes one
    from the clock and stores it; any later call, at any time and on any
    storage that still holds that id, returns it and leaves the storage as it
    is. *)
Theorem getSessionId_stable (t1 t2 : N) (localStorage : gmap string string) :
  let first := getSessionId t1 localStorage in
  let second := getSessionId t2 first.2 in
  second.1 = first.1 /\ second.2 = first.2 /\
  first.2 !! "dt-session-id" = Some first.1 /\
  (localStorage !! "dt-session-id" = None ->
     first = ("session-" +:+ pretty t1,
              <["dt-session-id" := "session-" +:+ pretty t1]> localStorage)) /\
  (forall later : gmap string string,
     later !! "dt-session-id" = Some first.1 ->
     getSessionId t2 later = (first.1, later)).
Proof.
  intros first second.
  destruct (getSessionId_stores t1 localStorage) as [Hstored Htruthy].
  fold first in Hstored, Htruthy.
  assert (forall later : gmap string string,
            later !! "dt-session-id" = Some first.1 ->
            getSessionId t2 later = (first.1, later)) as Hlater
    by (intros later Hl; now apply getSessionId_stored).
  unfold second. rewrite (Hlater first.2 Hstored). simpl.
  repeat split; try assumption.
  intros Hnone. unfold first, getSessionId. now rewrite Hnone.
Qed.

(** * Sending a message when the chat request fails *)

(** Every failure text starts with the same apology. *)
Lemma errorMessage_of_apology (error : Thrown) :
  exists detail,
    errorMessage_of error =
    "Entschuldigung, es gab einen Fehler bei der Verbindung." +:+ detail.
Proof.
  unfold errorMessage_of. destruct error as [msg|].
  - destruct (includes msg "Failed to fetch"); [eexists; reflexivity|].
    destruct (includes msg "404"); [eexists; reflexivity|].
    exists "". now rewrite append_nil_r.
  - exists "". now rewrite append_nil_r.
Qed.

(** C6. When a submit goes out (the input is not blank and no request is
    pending) and the chat request fails, the history afterwards is the
    history before, then the user's message, then an assistant message that
    carries the failure text; the progress map is untouched and the loading
    flag is cleared. *)
Theorem handleSendMessage_failure_keeps_user_message
    (clock : Clock) (server : string -> string -> FetchOutcome ChatResponse)
    (localStorage : gmap string string) (st : AppState) (error : Thrown) :
  truthy (trim (newMessage st)) = true ->
  loading st = false ->
  chatAPI_sendMessage server (trim (newMessage st))
    (getSessionId (t_session clock) localStorage).1 = inl error ->
  let st' := (handleSendMessage clock server localStorage st).1 in
  messages st' =
    messages st ++
    [mkMessage user (trim (newMessage st)) (t_user clock) None;
     mkMessage assistant (errorMessage_of error) (t_reply clock) None] /\
  (exists detail,
     errorMessage_of error =
     "Entschuldigung, es gab einen Fehler bei der Verbindung." +:+ detail) /\
  frameworkProgress st' = frameworkProgress st /\
  frameworkSteps st' = frameworkSteps st /\
  loading st' = false.
Proof.
  intros Hinput Hidle Hfail st'. unfold st', handleSendMessage.
  rewrite Hinput, Hidle. simpl.
  destruct (getSessionId (t_session clock) localStorage) as [sessionId storage].
  simpl in Hfail. rewrite Hfail. simpl.
  split; [now rewrite <- app_assoc|].
  split; [apply errorMessage_of_apology|]. easy.
Qed.

Lemma handleSendMessage_failure_keeps_user_message_witness :
  let st := mkApp [] "  Unser Team hat Probleme " false true 0 false false ∅ [] in
  let server := fun _ _ : string => Response (A := ChatResponse) false 500 (BodyThrows NonError) in
  messages (handleSendMessage (mkClock 10 11 12) server ∅ st).1 =
    [mkMessage user "Unser Team hat Probleme" 10 None;
     mkMessage assistant
       "Entschuldigung, es gab einen Fehler bei der Verbindung." 12 None].
Proof.
  cbv zeta.
  exact (proj1 (handleSendMessage_failure_keeps_user_message
    (mkClock 10 11 12)
    (fun _ _ : string => Response (A := ChatResponse) false 500 (BodyThrows NonError))
    ∅ (mkApp [] "  Unser Team hat Probleme " false true 0 false false ∅ [])
    (Error "HTTP error! status: 500")
    eq_refl eq_refl eq_refl)).
Defined.

(** * Reloading the configuration *)

(** C7, as worded, fails: a well-formed answer without a stage list makes the
    loader return an error, and the component then holds no stage at all. *)
Lemma reload_claim_fails :
  let stage := mkStage "problem" "Problem" "What is wrong" "P" ["problem"; "issue"] in
  let st := mkApp [] "" false true 0 false false {["problem" := true]} [stage] in
  let server :=
    Response true 200
      (BodyJson (mkConfigResponse (Some (mkConfig (Some (mkFrameworkConfig None)))))) in
  chatAPI_loadFrameworkStages "#" server =
    inl (Error "Framework stages not found in config") /\
  frameworkSteps (loadFrameworkStages "#" server st) = [] /\
  ~ reload_claim "#" server st.
Proof.
  cbv zeta. split; [reflexivity|]. split; [reflexivity|].
  intros H. specialize (H _ eq_refl). discriminate H.
Qed.

(** C7, amended.  A reload fails when the request is rejected, the answer is
    not ok, its body cannot be read, or the stage list is missing from it; the
    loader then returns an error, and the component replaces its stage list
    by the empty list and its progress map by the empty map.  The history is
    untouched and the loading flag is cleared. *)
Theorem loadFrameworkStages_failure_clears_stages :
  (forall pin status data,
     optional_stages data = None ->
     chatAPI_loadFrameworkStages pin (Response true status (BodyJson data)) =
     inl (Error "Framework stages not found in config")) /\
  (forall pin status body,
     chatAPI_loadFrameworkStages pin (Response false status body) =
     inl (Error ("API config endpoint failed: " +:+ pretty status))) /\
  (forall pin server st error,
     chatAPI_loadFrameworkStages pin server = inl error ->
     let st' := loadFrameworkStages pin server st in
     frameworkSteps st' = [] /\
     frameworkProgress st' = ∅ /\
     frameworkLoading st' = false /\
     messages st' = messages st).
Proof.
  split; [|split].
  - intros pin status data Hnone. simpl. now rewrite Hnone.
  - reflexivity.
  - intros pin server st error Hfail st'. unfold st', loadFrameworkStages.
    now rewrite Hfail.
Qed.

(** * More on the progress tracker *)

(** X1. The update never deletes a key and never turns an entry to [false]:
    a key is present afterwards exactly when it was present before or some
    stage with that key matched, and an entry that is [false] afterwards was
    [false] before. *)
Theorem updateFrameworkProgress_keys
    (text : string) (steps : list FrameworkStage) (progress : gmap string bool) :
  (forall k,
     k ∈ dom (updateFrameworkProgress text steps progress) <->
     k ∈ dom progress \/
     exists stage, stage ∈ steps /\ key stage = k /\ keyword_match text stage) /\
  (forall k,
     updateFrameworkProgress text steps progress !! k = Some false ->
     progress !! k = Some false) /\
  dom (updateFrameworkProgress text steps progress) ⊆ dom progress ∪ keyset steps.
Proof.
  assert (forall k,
     k ∈ dom (updateFrameworkProgress text steps progress) <->
     k ∈ dom progress \/
     exists stage, stage ∈ steps /\ key stage = k /\ keyword_match text stage) as Hdom.
  { intros k. rewrite !elem_of_dom, update_lookup.
    destruct (marks (toLowerCase text) k steps) eqn:Hm.
    - apply marks_true in Hm as (stage & Hin & Hk & Hf). apply found_spec in Hf.
      split; [intros _; right; now exists stage | intros _; now exists true].
    - split; [now left|]. intros [H|(stage & Hin & Hk & Hf)]; [assumption|].
      apply found_spec in Hf.
      assert (marks (toLowerCase text) k steps = true) as Ht
        by (apply marks_true; now exists stage).
      congruence. }
  split; [exact Hdom|]. split.
  - intros k. rewrite update_lookup.
    now destruct (marks (toLowerCase text) k steps).
  - intros k [H|(stage & Hin & Hk & _)]%Hdom; apply elem_of_union; [now left|right].
    apply elem_of_keyset. now exists stage.
Qed.

Lemma marks_Permutation (lower k : string) (steps steps' : list FrameworkStage) :
  steps ≡ₚ steps' -> marks lower k steps = marks lower k steps'.
Proof.
  intros Hp. apply eq_true_iff_eq. rewrite !marks_true.
  split; intros (stage & Hin & H); exists stage; split; try assumption.
  - now rewrite <- Hp.
  - now rewrite Hp.
Qed.

(** X2. The order of the stage list does not matter to the update: any
    rearrangement of the stages gives the same progress map. *)
Theorem updateFrameworkProgress_order_irrelevant
    (text : string) (steps steps' : list FrameworkStage)
    (progress : gmap string bool) :
  steps ≡ₚ steps' ->
  updateFrameworkProgress text steps progress =
  updateFrameworkProgress text steps' progress.
Proof.
  intros Hp. apply map_eq. intros k. rewrite !update_lookup.
  now rewrite (marks_Permutation _ _ _ _ Hp).
Qed.

Lemma updateFrameworkProgress_order_irrelevant_witness :
  let first := mkStage "problem" "Problem" "What is wrong" "P" ["problem"] in
  let second := mkStage "users" "Users" "Who is affected" "U" ["user"; "customer"] in
  updateFrameworkProgress "The customer has a problem" [first; second] ∅ =
  updateFrameworkProgress "The customer has a problem" [second; first] ∅.
Proof.
  cbv zeta.
  apply (updateFrameworkProgress_order_irrelevant "The customer has a problem"
           [mkStage "problem" "Problem" "What is wrong" "P" ["problem"];
            mkStage "users" "Users" "Who is affected" "U" ["user"; "customer"]]
           [mkStage "users" "Users" "Who is affected" "U" ["user"; "customer"];
            mkStage "problem" "Problem" "What is wrong" "P" ["problem"]] ∅).
  apply Permutation_swap.
Defined.

(** X3. Updates accumulate and commute: after two replies an entry is [true]
    exactly when it was [true] before or one of the replies matched a stage
    with that key, whichever reply came first, also when the stage list
    changed in between. *)
Theorem updateFrameworkProgress_two_replies
    (text1 text2 : string) (steps1 steps2 : list FrameworkStage)
    (progress : gmap string bool) :
  let after :=
    updateFrameworkProgress text2 steps2
      (updateFrameworkProgress text1 steps1 progress) in
  after =
    updateFrameworkProgress text1 steps1
      (updateFrameworkProgress text2 steps2 progress) /\
  (forall k,
     after !! k = Some true <->
     progress !! k = Some true \/
     (exists stage, stage ∈ steps1 /\ key stage = k /\ keyword_match text1 stage) \/
     (exists stage, stage ∈ steps2 /\ key stage = k /\ keyword_match text2 stage)).
Proof.
  intros after. split.
  - apply map_eq. intros k. unfold after. rewrite !update_lookup.
    now destruct (marks (toLowerCase text1) k steps1),
                 (marks (toLowerCase text2) k steps2).
  - intros k. unfold after. rewrite !update_lookup.
    assert (forall t s, marks (toLowerCase t) k s = true <->
              exists stage, stage ∈ s /\ key stage = k /\ keyword_match t stage) as Hm.
    { intros t s. rewrite marks_true.
      split; intros (stage & Hin & Hk & Hf); exists stage;
        (split; [assumption|split; [assumption|now apply found_spec]]). }
    destruct (marks (toLowerCase text2) k steps2) eqn:H2.
    + split; [intros _; right; right; now apply Hm | reflexivity].
    + destruct (marks (toLowerCase text1) k steps1) eqn:H1.
      * split; [intros _; right; left; now apply Hm | reflexivity].
      * split; [now left|]. intros [H|[H|H]]; [assumption| |];
          apply Hm in H; congruence.
Qed.







(** * White space *)

Lemma all_space_app (a b : string) :
  all_space (a +:+ b) = all_space a && all_space b.
Proof.
  induction a as [|c a IH]; [reflexivity|].
  rewrite append_cons. simpl. now rewrite IH, andb_assoc.
Qed.

Lemma trimStart_spec (s : string) :
  exists pre, s = pre +:+ trimStart s /\ all_space pre = true /\
    forall c, first_char (trimStart s) = Some c -> is_space c = false.
Proof.
  induction s as [|c s (pre & Hs & Hpre & Hfirst)].
  - exists "". repeat split. discriminate.
  - simpl. destruct (is_space c) eqn:Hc.
    + exists (String c pre). rewrite append_cons, <- Hs. simpl.
      rewrite Hc, Hpre. repeat split. exact Hfirst.
    + exists "". repeat split. simpl. intros c' [= <-]. exact Hc.
Qed.

Lemma trimEnd_cons (c : ascii) (s : string) :
  trimEnd (String c s) =
  match trimEnd s with
  | EmptyString => if is_space c then EmptyString else String c EmptyString
  | r => String c r
  end.
Proof. reflexivity. Qed.

Lemma trimEnd_spec (s : string) :
  exists post, s = trimEnd s +:+ post /\ all_space post = true /\
    forall c, last_char (trimEnd s) = Some c -> is_space c = false.
Proof.
  induction s as [|c s (post & Hs & Hpost & Hlast)].
  - exists "". repeat split. discriminate.
  - rewrite trimEnd_cons. destruct (trimEnd s) as [|d r] eqn:Ht.
    + change (s = post) in Hs. subst s. destruct (is_space c) eqn:Hc.
      * exists (String c post). simpl. rewrite Hc, Hpost.
        repeat split. discriminate.
      * exists post. repeat split; [assumption|].
        simpl. intros c' [= <-]. exact Hc.
    + exists post. rewrite append_cons, <- Hs. repeat split; assumption.
Qed.

Lemma trimEnd_first (c : ascii) (s : string) :
  is_space c = false -> exists r, trimEnd (String c s) = String c r.
Proof.
  intros Hc. rewrite trimEnd_cons, Hc. destruct (trimEnd s); eauto.
Qed.



Lemma trim_first (s : string) (c : ascii) :
  first_char (trim s) = Some c -> is_space c = false.
Proof.
  unfold trim. destruct (trimStart_spec s) as (pre & _ & _ & Hfirst).
  destruct (trimStart s) as [|d r]; [discriminate|].
  pose proof (Hfirst d eq_refl) as Hd.
  destruct (trimEnd_first d r Hd) as [r' ->]. simpl. now intros [= <-].
Qed.

Lemma trim_last (s : string) (c : ascii) :
  last_char (trim s) = Some c -> is_space c = false.
Proof.
  unfold trim. destruct (trimEnd_spec (trimStart s)) as (post & _ & _ & Hlast).
  apply Hlast.
Qed.

Lemma trim_blank (s : string) :
  truthy (trim s) = false <-> all_space s = true.
Proof.
  unfold trim. split.
  - intros Ht. destruct (trimStart_spec s) as (pre & Hs & Hpre & _).
    destruct (trimEnd_spec (trimStart s)) as (post & Hs' & Hpost & _).
    destruct (trimEnd (trimStart s)); [|discriminate].
    rewrite Hs, Hs', all_space_app. change ("" +:+ post) with post.
    now rewrite Hpre, Hpost.
  - intros Hs. assert (trimStart s = "") as ->; [|reflexivity].
    induction s as [|c s IH]; [reflexivity|]. simpl in *.
    apply andb_true_iff in Hs as [-> Hs]. now apply IH.
Qed.


Lemma trim_decompose (s : string) :
  exists pre post, s = pre +:+ trim s +:+ post /\
    all_space pre = true /\ all_space post = true.
Proof.
  unfold trim. destruct (trimStart_spec s) as (pre & Hs & Hpre & _).
  destruct (trimEnd_spec (trimStart s)) as (post & Hs' & Hpost & _).
  exists pre, post. repeat split; try assumption.
  now rewrite <- Hs'.
Qed.

(** * Characters of a text *)

Lemma append_inj_l (a b c : string) : a +:+ b = a +:+ c -> b = c.
Proof.
  induction a as [|x a IH]; [easy|].
  rewrite !append_cons. intros [= H]. now apply IH.
Qed.

Lemma every_app (test : ascii -> bool) (a b : string) :
  every test (a +:+ b) = every test a && every test b.
Proof.
  induction a as [|c a IH]; [reflexivity|].
  rewrite append_cons. simpl. now rewrite IH, andb_assoc.
Qed.

Lemma every_impl (test test' : ascii -> bool) (s : string) :
  (forall c, test c = true -> test' c = true) ->
  every test s = true -> every test' s = true.
Proof.
  intros Himpl. induction s as [|c s IH]; [reflexivity|]. simpl.
  intros [Hc Hs]%andb_true_iff. now rewrite (Himpl c Hc), IH.
Qed.

Lemma prefix_cons_ne (c x : ascii) (r s : string) :
  x <> c -> String.prefix (String c r) (String x s) = false.
Proof.
  intros Hne. simpl. destruct (ascii_dec c x); [congruence | reflexivity].
Qed.

(** A text in which [c] does not occur holds no string that starts with [c],
    and a text it is put in front of adds no occurrence. *)
Lemma includes_skip (c : ascii) (r pre s : string) :
  every (fun x => negb (Ascii.eqb x c)) pre = true ->
  includes (pre +:+ s) (String c r) = includes s (String c r).
Proof.
  induction pre as [|x pre IH]; [reflexivity|]. intros H. simpl in H.
  apply andb_true_iff in H as [Hx Hpre].
  apply negb_true_iff, Ascii.eqb_neq in Hx.
  rewrite append_cons, includes_unfold, prefix_cons_ne by assumption.
  now apply IH.
Qed.

Lemma includes_absent (c : ascii) (r s : string) :
  every (fun x => negb (Ascii.eqb x c)) s = true ->
  includes s (String c r) = false.
Proof.
  intros Hs. rewrite <- (append_nil_r s), includes_skip by assumption.
  reflexivity.
Qed.

Lemma pretty_N_go_digits (x : N) :
  forall s, every is_digit s = true -> every is_digit (pretty_N_go x s) = true.
Proof.
  induction (N.lt_wf_0 x) as [x _ IH]. intros s Hs.
  destruct (N.eq_dec x 0) as [->|Hx].
  - now rewrite pretty_N_go_0.
  - rewrite pretty_N_go_step by lia. apply IH.
    + apply N.div_lt; lia.
    + simpl. rewrite Hs, andb_true_r.
      pose proof (N.mod_lt x 10 ltac:(lia)) as Hlt.
      unfold pretty_N_char. repeat case_match; try reflexivity; lia.
Qed.

Lemma pretty_N_digits (x : N) : every is_digit (pretty x) = true.
Proof.
  unfold pretty, pretty_N. case_decide; [reflexivity|].
  now apply pretty_N_go_digits.
Qed.

Lemma pretty_N_go_nonempty (x : N) :
  forall s, truthy s = true -> truthy (pretty_N_go x s) = true.
Proof.
  induction (N.lt_wf_0 x) as [x _ IH]. intros s Hs.
  destruct (N.eq_dec x 0) as [->|Hx].
  - now rewrite pretty_N_go_0.
  - rewrite pretty_N_go_step by lia. apply IH; [|reflexivity].
    apply N.div_lt; lia.
Qed.

Lemma pretty_N_nonempty (x : N) : truthy (pretty x) = true.
Proof.
  unfold pretty, pretty_N. case_decide as Hx; [reflexivity|].
  rewrite pretty_N_go_step by lia. now apply pretty_N_go_nonempty.
Qed.

(** * More on the session id and on failures *)

(** X5. [getSessionId] writes the item "dt-session-id" and nothing else, the
    id it returns is never empty, an empty stored id is replaced, and ids made
    at different clock readings differ. *)
Theorem getSessionId_storage (now : N) (localStorage : gmap string string) :
  (forall item, item <> "dt-session-id" ->
     (getSessionId now localStorage).2 !! item = localStorage !! item) /\
  truthy (getSessionId now localStorage).1 = true /\
  (localStorage !! "dt-session-id" = Some "" ->
     (getSessionId now localStorage).1 = "session-" +:+ pretty now) /\
  (forall later,
     localStorage !! "dt-session-id" = None -> later <> now ->
     (getSessionId later localStorage).1 <> (getSessionId now localStorage).1).
Proof.
  split; [|split; [|split]].
  - intros item Hitem. unfold getSessionId.
    destruct (localStorage !! "dt-session-id") as [stored|].
    + destruct (truthy stored); simpl; [reflexivity|].
      now apply lookup_insert_ne.
    + simpl. now apply lookup_insert_ne.
  - apply getSessionId_stores.
  - intros Hs. unfold getSessionId. now rewrite Hs.
  - intros later Hnone Hne. unfold getSessionId. rewrite Hnone. simpl.
    intros H. apply append_inj_l in H. now apply (inj pretty) in H.
Qed.

Lemma status_line_no_fetch (status : N) :
  includes ("HTTP error! status: " +:+ pretty status) "Failed to fetch" = false.
Proof.
  apply includes_absent. rewrite every_app. apply andb_true_iff. split.
  - vm_compute. reflexivity.
  - apply (every_impl is_digit); [|apply pretty_N_digits].
    intros c Hc. unfold is_digit in Hc. apply andb_true_iff in Hc as [H1 H2].
    apply N.leb_le in H1, H2. apply negb_true_iff, Ascii.eqb_neq.
    intros ->. simpl in H2. lia.
Qed.

Lemma status_line_404 (status : N) :
  includes ("HTTP error! status: " +:+ pretty status) "404" =
  includes (pretty status) "404".
Proof. apply includes_skip. vm_compute. reflexivity. Qed.

(** X6. What the user reads after a failed request.  When the request itself
    is rejected with "Failed to fetch" in its message, the text is the apology
    with the hint that the backend may not run.  When the server answers with
    a status that is not ok, [sendMessage] throws the status line, and the
    text is the apology with the hint at a missing endpoint if 404 occurs in
    the status numeral and the bare apology otherwise: never the backend
    hint. *)
Theorem failure_text_by_cause
    (server : string -> string -> FetchOutcome ChatResponse)
    (message sessionId : string) :
  (forall msg,
     server message sessionId = Rejected (Error msg) ->
     includes msg "Failed to fetch" = true ->
     chatAPI_sendMessage server message sessionId = inl (Error msg) /\
     errorMessage_of (Error msg) = apology +:+ backend_hint) /\
  (forall status body,
     server message sessionId = Response false status body ->
     chatAPI_sendMessage server message sessionId =
       inl (Error ("HTTP error! status: " +:+ pretty status)) /\
     errorMessage_of (Error ("HTTP error! status: " +:+ pretty status)) =
       if includes (pretty status) "404" then apology +:+ endpoint_hint
       else apology).
Proof.
  split.
  - intros msg Hserver Hfetch. unfold chatAPI_sendMessage, errorMessage_of.
    now rewrite Hserver, Hfetch.
  - intros status body Hserver. unfold chatAPI_sendMessage, errorMessage_of.
    rewrite Hserver. split; [reflexivity|].
    rewrite status_line_no_fetch, status_line_404.
    now destruct (includes (pretty status) "404").
Qed.

(** * More on sending a message *)

Lemma handleSendMessage_in_same (clock : Clock)
    (server : string -> string -> FetchOutcome ChatResponse)
    (localStorage : gmap string string) (st : AppState) :
  handleSendMessage_in st clock server localStorage st =
  handleSendMessage clock server localStorage st.
Proof. reflexivity. Qed.

Lemma can_send_guard (st : AppState) :
  can_send st <->
  negb (truthy (trim (newMessage st))) || loading st = false.
Proof.
  unfold can_send. rewrite orb_false_iff, negb_false_iff.
  pose proof (trim_blank (newMessage st)) as Hb.
  destruct (truthy (trim (newMessage st))), (all_space (newMessage st));
    intuition congruence.
Qed.

(** The shape of every send, whatever render made the closure. *)
Lemma handleSendMessage_in_sent (closure : AppState) (clock : Clock)
    (server : string -> string -> FetchOutcome ChatResponse)
    (localStorage : gmap string string) (current : AppState) :
  can_send closure ->
  let r := handleSendMessage_in closure clock server localStorage current in
  exists answer,
    messages r.1 =
      messages current ++
      [mkMessage user (trim (newMessage closure)) (t_user clock) None; answer] /\
    type answer = assistant /\
    timestamp answer = t_reply clock /\
    isStructuredSummary answer = None /\
    newMessage r.1 = "" /\
    loading r.1 = false /\
    frameworkSteps r.1 = frameworkSteps current /\
    startTime r.1 = startTime current /\
    r.2 = (getSessionId (t_session clock) localStorage).2 /\
    match chatAPI_sendMessage server (trim (newMessage closure))
            (getSessionId (t_session clock) localStorage).1 with
    | inr response =>
        content answer =
          or_else (message response)
            (or_else (reply response) "Keine Antwort erhalten") /\
        frameworkProgress r.1 =
          updateFrameworkProgress (content answer)
            (frameworkSteps closure) (frameworkProgress closure)
    | inl error =>
        content answer = errorMessage_of error /\
        frameworkProgress r.1 = frameworkProgress current
    end.
Proof.
  intros Hsend%can_send_guard r. unfold r, handleSendMessage_in.
  rewrite Hsend.
  destruct (getSessionId (t_session clock) localStorage) as [sessionId storage].
  simpl.
  destruct (chatAPI_sendMessage server (trim (newMessage closure)) sessionId)
    as [error|response]; simpl; eexists; rewrite <- app_assoc; simpl;
    repeat split; reflexivity.
Qed.

Lemma handleSendMessage_in_ignored (closure : AppState) (clock : Clock)
    (server : string -> string -> FetchOutcome ChatResponse)
    (localStorage : gmap string string) (current : AppState) :
  ~ can_send closure ->
  handleSendMessage_in closure clock server localStorage current =
  (current, localStorage).
Proof.
  intros Hno. unfold handleSendMessage_in.
  destruct (negb (truthy (trim (newMessage closure))) || loading closure) eqn:Hg;
    [reflexivity|].
  destruct Hno. now apply can_send_guard.
Qed.


(** X8. A submit that goes out records the user's text without the white
    space around it, then one assistant message: the input is white space,
    the recorded text, white space; the recorded text is not empty and
    neither begins nor ends with white space; the input box is emptied. *)
Theorem handleSendMessage_records_trimmed (clock : Clock)
    (server : string -> string -> FetchOutcome ChatResponse)
    (localStorage : gmap string string) (st : AppState) :
  can_send st ->
  let r := handleSendMessage clock server localStorage st in
  exists recorded answer pre post,
    messages r.1 = messages st ++ [recorded; answer] /\
    type recorded = user /\ type answer = assistant /\
    newMessage st = pre +:+ content recorded +:+ post /\
    all_space pre = true /\ all_space post = true /\
    truthy (content recorded) = true /\
    (forall c, first_char (content recorded) = Some c -> is_space c = false) /\
    (forall c, last_char (content recorded) = Some c -> is_space c = false) /\
    newMessage r.1 = "".
Proof.
  intros Hsend r. unfold r. rewrite <- handleSendMessage_in_same.
  destruct (handleSendMessage_in_sent st clock server localStorage st Hsend)
    as (answer & Hm & Ha & _ & _ & Hnew & _).
  destruct (trim_decompose (newMessage st)) as (pre & post & Hs & Hpre & Hpost).
  eexists _, answer, pre, post. split; [exact Hm|]. simpl.
  repeat split; try assumption.
  - apply can_send_guard in Hsend. apply orb_false_iff in Hsend as [Ht _].
    now apply negb_false_iff in Ht.
  - apply trim_first.
  - apply trim_last.
Qed.

Lemma handleSendMessage_records_trimmed_witness :
  let st := mkApp [] "  Unser Team hat Probleme " false true 0 false false ∅ [] in
  let server := fun _ _ : string =>
    Response true 200 (BodyJson (mkChatResponse None (Some "Aha"))) in
  exists recorded answer,
    messages (handleSendMessage (mkClock 10 11 12) server ∅ st).1 =
      [recorded; answer] /\
    content recorded = "Unser Team hat Probleme".
Proof.
  cbv zeta.
  destruct (handleSendMessage_records_trimmed (mkClock 10 11 12)
    (fun _ _ : string =>
       Response true 200 (BodyJson (mkChatResponse None (Some "Aha"))))
    ∅ (mkApp [] "  Unser Team hat Probleme " false true 0 false false ∅ [])
    (conj eq_refl eq_refl))
    as (recorded & answer & pre & post & Hm & _).
  exists recorded, answer. split; [exact Hm|].
  simpl in Hm. now injection Hm as <- _.
Defined.





(** The component and the storage after a send that went out. *)
Lemma handleSendMessage_result (clock : Clock)
    (server : string -> string -> FetchOutcome ChatResponse)
    (localStorage : gmap string string) (st : AppState) :
  can_send st ->
  let session := getSessionId (t_session clock) localStorage in
  let outcome := chatAPI_sendMessage server (trim (newMessage st)) session.1 in
  handleSendMessage clock server localStorage st =
  (mkApp
     (messages st ++
      [mkMessage user (trim (newMessage st)) (t_user clock) None;
       mkMessage assistant (answer_text outcome) (t_reply clock) None])
     "" false (isActive st) (startTime st) (showExport st) (frameworkLoading st)
     (match outcome with
      | inr _ =>
          updateFrameworkProgress (answer_text outcome)
            (frameworkSteps st) (frameworkProgress st)
      | inl _ => frameworkProgress st
      end)
     (frameworkSteps st),
   session.2).
Proof.
  intros Hsend%can_send_guard session outcome. unfold outcome, session.
  unfold handleSendMessage. rewrite Hsend.
  destruct (getSessionId (t_session clock) localStorage) as [sessionId storage].
  simpl.
  destruct (chatAPI_sendMessage server (trim (newMessage st)) sessionId);
    simpl; unfold setLoading, setMessages, setFrameworkProgress; simpl;
    now rewrite <- app_assoc.
Qed.

(** X10. Two submits in a row, each typed and sent: the history grows by the
    first text, its answer, the second text, its answer, in that order; both
    requests carry the same session id, and the storage is written once. *)
Theorem two_submits (e : Emoji) (pin : string)
    (clock1 clock2 : Clock)
    (server1 server2 : string -> string -> FetchOutcome ChatResponse)
    (text1 text2 : string)
    (localStorage : gmap string string) (st : AppState) :
  loading st = false ->
  all_space text1 = false -> all_space text2 = false ->
  let r :=
    run e pin
      [MessageChange text1; SendMessage clock1 server1;
       MessageChange text2; SendMessage clock2 server2] (st, localStorage) in
  let id := (getSessionId (t_session clock1) localStorage).1 in
  messages r.1 =
    messages st ++
    [mkMessage user (trim text1) (t_user clock1) None;
     mkMessage assistant
       (answer_text (chatAPI_sendMessage server1 (trim text1) id))
       (t_reply clock1) None;
     mkMessage user (trim text2) (t_user clock2) None;
     mkMessage assistant
       (answer_text (chatAPI_sendMessage server2 (trim text2) id))
       (t_reply clock2) None] /\
  r.2 = (getSessionId (t_session clock1) localStorage).2 /\
  r.2 !! "dt-session-id" = Some id.
Proof.
  intros Hidle Hb1 Hb2 r id. unfold r, run. simpl.
  pose proof (getSessionId_stores (t_session clock1) localStorage) as [Hst Htr].
  cbv zeta in Hst, Htr. fold id in Hst, Htr.
  rewrite (handleSendMessage_result clock1 server1 localStorage
             (setNewMessage text1 st)) by (split; [exact Hb1 | exact Hidle]).
  cbv zeta. simpl. fold id.
  set (storage := (getSessionId (t_session clock1) localStorage).2) in *.
  match goal with
  | |- context [handleSendMessage clock2 server2 storage ?s] =>
      rewrite (handleSendMessage_result clock2 server2 storage s)
        by (split; [exact Hb2 | reflexivity])
  end.
  cbv zeta. simpl.
  rewrite (getSessionId_stored (t_session clock2) storage id Hst Htr). simpl.
  rewrite <- app_assoc. simpl. repeat split; assumption.
Qed.

Lemma two_submits_witness :
  let server := fun _ _ : string =>
    Response true 200 (BodyJson (mkChatResponse None (Some "Aha"))) in
  map type
    (messages
       (run (mkEmoji "" "" "" "" "") "#"
          [MessageChange "eins"; SendMessage (mkClock 1 2 3) server;
           MessageChange "zwei"; SendMessage (mkClock 4 5 6) server]
          (initialState 0, ∅)).1) =
  [user; assistant; user; assistant].
Proof.
  cbv zeta.
  rewrite (proj1 (two_submits (mkEmoji "" "" "" "" "") "#"
    (mkClock 1 2 3) (mkClock 4 5 6)
    (fun _ _ : string => Response true 200 (BodyJson (mkChatResponse None (Some "Aha"))))
    (fun _ _ : string => Response true 200 (BodyJson (mkChatResponse None (Some "Aha"))))
    "eins" "zwei" ∅ (initialState 0) eq_refl eq_refl eq_refl)).
  reflexivity.
Defined.

(** X11. An example button does not send its question.  The send it starts
    is the one of the render before the click: with a blank input box nothing
    is sent and the question stays in the box; with a text in the box that
    text is sent and the box is emptied. *)
Theorem handleSendExampleMessage_sends_old_input (clock : Clock)
    (server : string -> string -> FetchOutcome ChatResponse)
    (localStorage : gmap string string) (question : string) (st : AppState) :
  let r := handleSendExampleMessage clock server localStorage question st in
  (~ can_send st -> r = (setNewMessage question st, localStorage)) /\
  (can_send st ->
   exists answer,
     messages r.1 =
       messages st ++
       [mkMessage user (trim (newMessage st)) (t_user clock) None; answer] /\
     type answer = assistant /\
     newMessage r.1 = "").
Proof.
  intros r. unfold r, handleSendExampleMessage. split.
  - intros Hno. now apply handleSendMessage_in_ignored.
  - intros Hsend.
    destruct (handleSendMessage_in_sent st clock server localStorage
                (setNewMessage question st) Hsend)
      as (answer & Hm & Ha & _ & _ & Hnew & _).
    exists answer. repeat split; assumption.
Qed.

(** * What every run of the component keeps *)






Lemma foldl_false_lookup (stages : list FrameworkStage) :
  forall (m : gmap string bool) (k : string),
    foldl (fun acc step => <[key step := false]> acc) m stages !! k =
    if bool_decide (k ∈ key <$> stages) then Some false else m !! k.
Proof.
  induction stages as [|stage stages IH]; intros m k; simpl; [reflexivity|].
  rewrite IH. destruct (decide (k ∈ key <$> stages)) as [Hin|Hout].
  - rewrite !bool_decide_eq_true_2; [reflexivity| |assumption].
    now apply elem_of_cons; right.
  - rewrite (bool_decide_eq_false_2 _ Hout).
    destruct (decide (k = key stage)) as [->|Hne].
    + rewrite lookup_insert_eq, bool_decide_eq_true_2; [reflexivity|].
      now apply elem_of_cons; left.
    + rewrite lookup_insert_ne by congruence.
      rewrite bool_decide_eq_false_2; [reflexivity|].
      intros [?|?]%elem_of_cons; [congruence | contradiction].
Qed.

Lemma initialProgress_lookup (stages : list FrameworkStage) (k : string) :
  initialProgress stages !! k =
  if bool_decide (k ∈ key <$> stages) then Some false else None.
Proof. unfold initialProgress. now rewrite foldl_false_lookup. Qed.

Lemma initialProgress_dom (stages : list FrameworkStage) :
  dom (initialProgress stages) = keyset stages.
Proof.
  apply set_eq. intros k. unfold keyset.
  rewrite elem_of_dom, initialProgress_lookup, elem_of_list_to_set.
  case_bool_decide as Hk; split; intros Hx.
  - assumption.
  - now exists false.
  - now destruct Hx.
  - contradiction.
Qed.

Lemma count_true_none (progress : gmap string bool) :
  (forall k, progress !! k <> Some true) -> count_true progress = 0.
Proof.
  intros Hnone. unfold count_true.
  assert (forall l : list bool, (forall v, v ∈ l -> v <> true) ->
            filter (fun v => v = true) l = []) as Hfilter.
  { induction l as [|x l IH]; intros Hl; [reflexivity|].
    rewrite filter_cons, decide_False, IH; [reflexivity| |].
    - intros v Hv. apply Hl. now apply elem_of_cons; right.
    - apply Hl. now apply elem_of_cons; left. }
  rewrite Hfilter; [reflexivity|].
  intros v (k & Hk)%elem_of_values ->. now apply (Hnone k).
Qed.

Lemma percentage_none (steps : list FrameworkStage)
    (progress : gmap string bool) :
  (forall k, progress !! k <> Some true) ->
  progressPercentage steps progress = 0.
Proof.
  intros Hnone. unfold progressPercentage. rewrite count_true_none by assumption.
  destruct (0 <? N.of_nat (length steps)) eqn:Hn; [|reflexivity].
  apply N.ltb_lt in Hn. unfold round_percent. apply N.div_small. lia.
Qed.

Lemma initialProgress_none (stages : list FrameworkStage) (k : string) :
  initialProgress stages !! k <> Some true.
Proof. rewrite initialProgress_lookup. now case_bool_decide. Qed.





Lemma loadFrameworkStages_keeps (pin : string)
    (server : FetchOutcome ConfigResponse) (st : AppState) :
  let st' := loadFrameworkStages pin server st in
  progress_within_stages st' /\ messages st' = messages st /\
  startTime st' = startTime st.
Proof.
  unfold loadFrameworkStages, progress_within_stages.
  destruct (chatAPI_loadFrameworkStages pin server) as [error|stages]; simpl.
  - rewrite dom_empty_L. repeat split. set_solver.
  - rewrite initialProgress_dom. easy.
Qed.




(** * Loading, reloading, commands *)

(** X13. A successful load takes the stages in the order the server sent
    them, gives every stage an icon (its own when it has a non-empty one,
    else the pushpin) and starts progress afresh: the map has exactly the
    stage keys, all [false], whatever was covered before, and the percentage
    is 0.  The history is not touched. *)
Theorem loadFrameworkStages_success (pin : string) (status : N)
    (data : ConfigResponse) (raw : list RawStage) (st : AppState) :
  optional_stages data = Some raw ->
  let st' := loadFrameworkStages pin (Response true status (BodyJson data)) st in
  key <$> frameworkSteps st' = raw_key <$> raw /\
  (truthy pin = true ->
   forall stage, stage ∈ frameworkSteps st' -> truthy (icon stage) = true) /\
  (forall k,
     frameworkProgress st' !! k =
     if bool_decide (k ∈ raw_key <$> raw) then Some false else None) /\
  progressPercentage (frameworkSteps st') (frameworkProgress st') = 0 /\
  frameworkLoading st' = false /\
  messages st' = messages st.
Proof.
  intros Hraw st'. unfold st', loadFrameworkStages. simpl. rewrite Hraw. simpl.
  set (stages := map _ raw).
  assert (key <$> stages = raw_key <$> raw) as Hkeys.
  { unfold stages. clear. induction raw as [|r raw IH]; [reflexivity|].
    simpl. f_equal. exact IH. }
  split; [exact Hkeys|]. split; [|split; [|split; [|easy]]].
  - intros Hpin stage Hin. unfold stages in Hin.
    apply list_elem_of_In, in_map_iff in Hin as (r & <- & _). simpl.
    unfold or_else. destruct (raw_icon r) as [[|c i]|]; simpl; easy.
  - intros k. now rewrite initialProgress_lookup, Hkeys.
  - apply percentage_none, initialProgress_none.
Qed.

Lemma loadFrameworkStages_success_witness :
  let raw := [mkRawStage "problem" "Problem" "What is wrong" None None;
              mkRawStage "users" "Users" "Who is affected" (Some "U") (Some ["user"])] in
  let data := mkConfigResponse (Some (mkConfig (Some (mkFrameworkConfig (Some raw))))) in
  let st := mkApp [] "" false true 0 false false {["problem" := true]} [] in
  key <$> frameworkSteps
    (loadFrameworkStages "#" (Response true 200 (BodyJson data)) st) =
  ["problem"; "users"].
Proof.
  cbv zeta.
  exact (proj1 (loadFrameworkStages_success "#" 200
    (mkConfigResponse (Some (mkConfig (Some (mkFrameworkConfig (Some
       [mkRawStage "problem" "Problem" "What is wrong" None None;
        mkRawStage "users" "Users" "Who is affected" (Some "U") (Some ["user"])]))))))
    [mkRawStage "problem" "Problem" "What is wrong" None None;
     mkRawStage "users" "Users" "Who is affected" (Some "U") (Some ["user"])]
    (mkApp [] "" false true 0 false false {["problem" := true]} [])
    eq_refl)).
Defined.

Lemma no_covered_stage (steps : list FrameworkStage)
    (progress : gmap string bool) :
  (forall step, step ∈ steps -> progress !! key step <> Some true) ->
  List.filter (covered progress) steps = [].
Proof.
  intros Hnone. induction steps as [|step steps IH]; [reflexivity|]. simpl.
  unfold covered at 1. rewrite bool_decide_eq_false_2.
  - apply IH. intros s Hs. apply Hnone. now apply elem_of_cons; right.
  - apply Hnone. now apply elem_of_cons; left.
Qed.

(** X14. An export with no covered stage is not an error: it is the header
    with the date and the percentage, no section, and the closing lines. *)
Theorem generateStructuredOutput_no_covered_stage
    (today : string) (messages : list Message)
    (steps : list FrameworkStage) (progress : gmap string bool) (pct : N) :
  (forall step, step ∈ steps -> progress !! key step <> Some true) ->
  generateStructuredOutput today messages steps progress pct =
  before_date +:+ today +:+ after_date pct +:+ trailer messages.
Proof.
  intros Hnone. rewrite generateStructuredOutput_layout.
  unfold rest_of_document. now rewrite (no_covered_stage steps progress Hnone).
Qed.

Lemma generateStructuredOutput_no_covered_stage_witness :
  generateStructuredOutput "3.11.2026"
    [mkMessage user "Hallo" 1 None]
    [mkStage "problem" "Problem" "What is wrong" "P" ["problem"]]
    {["problem" := false]} 0 =
  before_date +:+ "3.11.2026" +:+ after_date 0 +:+
  trailer [mkMessage user "Hallo" 1 None].
Proof.
  apply (generateStructuredOutput_no_covered_stage "3.11.2026"
           [mkMessage user "Hallo" 1 None]
           [mkStage "problem" "Problem" "What is wrong" "P" ["problem"]]
           {["problem" := false]} 0).
  intros step Hin. apply list_elem_of_singleton in Hin as ->. discriminate.
Defined.

(** X15. The command "/reset" leaves one system notice as the whole history,
    sets the entry of every stage key to [false] and nothing else, so the
    percentage and the count of user messages are 0 and an export made right
    after has no section; the stage list and the input box stay. *)
Theorem handleExecuteCommand_reset (e : Emoji) (now : N) (st : AppState) :
  let r := handleExecuteCommand e now "/reset" st in
  r.2 = [] /\
  (exists notice, messages r.1 = [notice] /\ type notice = system /\
     timestamp notice = now) /\
  (forall k,
     frameworkProgress r.1 !! k =
     if bool_decide (k ∈ key <$> frameworkSteps st) then Some false else None) /\
  frameworkSteps r.1 = frameworkSteps st /\
  newMessage r.1 = newMessage st /\
  progressPercentage (frameworkSteps r.1) (frameworkProgress r.1) = 0 /\
  messageCount (messages r.1) = 0%nat /\
  (forall today pct,
     generateStructuredOutput today (messages r.1) (frameworkSteps r.1)
       (frameworkProgress r.1) pct =
     before_date +:+ today +:+ after_date pct +:+ trailer (messages r.1)).
Proof.
  intros r. unfold r, handleExecuteCommand. simpl.
  change (foldl _ ∅ (frameworkSteps st))
    with (initialProgress (frameworkSteps st)).
  split; [reflexivity|]. split; [eexists; repeat split|].
  split; [intros k; apply initialProgress_lookup|].
  split; [reflexivity|]. split; [reflexivity|].
  split; [apply percentage_none, initialProgress_none|].
  split; [reflexivity|]. intros today pct.
  rewrite generateStructuredOutput_layout. unfold rest_of_document.
  rewrite no_covered_stage; [reflexivity|].
  intros step _. apply initialProgress_none.
Qed.



(** X17. A reload always reports success.  [loadFrameworkStages] keeps its
    failures to itself, so the notice appended is the one for success also
    when the load failed and the component is left without stages. *)
Theorem handleReloadFramework_reports_success (e : Emoji) (pin : string)
    (server : FetchOutcome ConfigResponse) (now : N) (st : AppState) :
  let st' := handleReloadFramework e pin server now st in
  messages st' =
    messages st ++
    [mkMessage system (emoji_ok e +:+ " Framework-Stufen wurden neu geladen.")
       now None] /\
  (forall error,
     chatAPI_loadFrameworkStages pin server = inl error ->
     frameworkSteps st' = [] /\ frameworkProgress st' = ∅).
Proof.
  intros st'. unfold st', handleReloadFramework, loadFrameworkStages_settled.
  destruct (loadFrameworkStages_keeps pin server st) as (_ & Hm & _).
  cbn [messages setMessages]. rewrite Hm. split; [reflexivity|].
  intros error Hfail. unfold loadFrameworkStages. now rewrite Hfail.
Qed.

(** * The structured summary *)

(** X18. The summary request.  Below 100 percent nothing happens: no request,
    no change.  From 100 percent on, exactly one assistant message is added,
    flagged as the summary when the request was answered and unflagged when
    it failed; the request text itself is not recorded, so the count of user
    messages stays, and neither the progress map nor the stage list changes.
    An answer with neither [message] nor [reply] is printed as "undefined". *)
Theorem handleGenerateStructuredSummary_effect (e : Emoji) (clock : Clock)
    (server : string -> string -> FetchOutcome ChatResponse)
    (localStorage : gmap string string) (st : AppState) :
  let r := handleGenerateStructuredSummary e clock server localStorage st in
  let percentage := progressPercentage (frameworkSteps st) (frameworkProgress st) in
  let outcome :=
    chatAPI_sendMessage server
      (summaryPrompt_of
         (List.filter (covered (frameworkProgress st)) (frameworkSteps st)))
      (getSessionId (t_session clock) localStorage).1 in
  (percentage < 100 -> r = (st, localStorage)) /\
  (100 <= percentage ->
   exists summary,
     messages r.1 = messages st ++ [summary] /\
     type summary = assistant /\
     timestamp summary = t_reply clock /\
     (isStructuredSummary summary = Some true <-> exists response, outcome = inr response) /\
     (forall response,
        outcome = inr response ->
        or_value (message response) (reply response) = None ->
        content summary =
          "## " +:+ emoji_summary e +:+
          " Strukturierte Design Thinking Zusammenfassung" +:+ nl +:+ nl +:+
          "undefined") /\
     messageCount (messages r.1) = messageCount (messages st) /\
     frameworkProgress r.1 = frameworkProgress st /\
     frameworkSteps r.1 = frameworkSteps st /\
     loading r.1 = false).
Proof.
  intros r percentage outcome. unfold r, handleGenerateStructuredSummary.
  fold percentage. split.
  - intros Hlow. apply N.ltb_lt in Hlow. now rewrite Hlow.
  - intros Hfull. apply N.ltb_ge in Hfull. rewrite Hfull.
    unfold outcome.
    destruct (getSessionId (t_session clock) localStorage) as [sessionId storage].
    simpl.
    destruct (chatAPI_sendMessage server _ sessionId) as [error|response] eqn:Hout;
      simpl; eexists; (split; [reflexivity|]); simpl.
    + repeat split; try easy.
      * intros (response & H). discriminate.
      * unfold messageCount. rewrite List.filter_app, length_app. simpl. lia.
    + repeat split; try easy.
      * intros _. now exists response.
      * intros response' [= <-] Hnone. now rewrite Hnone.
      * unfold messageCount. rewrite List.filter_app, length_app. simpl. lia.
Qed.

(** * The elapsed time *)

Lemma pretty_Z_of_N (n : N) : pretty (Z.of_N n) = pretty n.
Proof. now destruct n. Qed.

Lemma padStart_two_digits_check :
  forallb (fun n =>
    String.eqb (padStart 2 "0" (pretty (N.of_nat n))) (two_digits (N.of_nat n)))
    (seq 0 100) = true.
Proof. vm_compute. reflexivity. Qed.

Lemma padStart_two_digits (n : N) :
  n < 100 -> padStart 2 "0" (pretty n) = two_digits n.
Proof.
  intros Hn. pose proof padStart_two_digits_check as H.
  rewrite forallb_forall in H. specialize (H (N.to_nat n)).
  rewrite in_seq, N2Nat.id in H. apply String.eqb_eq, H. lia.
Qed.

(** X19. The elapsed time shown in the header.  With the clock at or after the
    start it is the whole minutes, a colon, and the remaining whole seconds
    as exactly two digits, always below 60.  With the clock before the start
    the text begins with a minus sign. *)
Theorem formatDuration_elapsed (now start : N) :
  (start <= now ->
   let total := (now - start) / 1000 in
   formatDuration now start =
   pretty (total / 60) +:+ ":" +:+ two_digits (total mod 60)) /\
  (now < start -> first_char (formatDuration now start) = Some "-"%char).
Proof.
  split.
  - intros Hle total. unfold formatDuration.
    replace (Z.of_N now - Z.of_N start)%Z with (Z.of_N (now - start)) by lia.
    set (x := now - start) in *.
    rewrite Z.rem_mod_nonneg by lia.
    change 60000%Z with (Z.of_N 60000). change 1000%Z with (Z.of_N 1000).
    rewrite <- N2Z.inj_mod, <- !N2Z.inj_div.
    assert (x / 60000 = total / 60) as ->
      by (unfold total; now rewrite N.Div0.div_div).
    assert (x mod 60000 / 1000 = total mod 60) as ->.
    { unfold total. change 60000 with (1000 * 60).
      rewrite N.Div0.mod_mul_r, (N.mul_comm 1000), N.div_add by lia.
      rewrite N.div_small; [reflexivity|]. apply N.mod_lt. lia. }
    rewrite !pretty_Z_of_N, padStart_two_digits; [reflexivity|].
    pose proof (N.mod_lt total 60). lia.
  - intros Hlt. unfold formatDuration.
    destruct ((Z.of_N now - Z.of_N start) / 60000)%Z as [|p|p] eqn:Hm.
    + exfalso. assert (0 <= Z.of_N now - Z.of_N start)%Z; [|lia].
      apply Z.div_small_iff in Hm; lia.
    + exfalso. pose proof (Zdiv_lt_upper_bound (Z.of_N now - Z.of_N start) 60000 0).
      lia.
    + reflexivity.
Qed.

(** * The export as the conversation goes on *)

Lemma find_app_found {A : Type} (f : A -> bool) (l more : list A) (x : A) :
  List.find f l = Some x -> List.find f (l ++ more) = Some x.
Proof.
  induction l as [|a l IH]; simpl; [discriminate|].
  destruct (f a); [easy | exact IH].
Qed.

Lemma sections_stable (messages more : list Message)
    (completed : list FrameworkStage) :
  (forall step, step ∈ completed ->
     exists m, m ∈ messages /\ relevant step m = true) ->
  sections toLowerCase (messages ++ more) completed =
  sections toLowerCase messages completed.
Proof.
  intros Hall. induction completed as [|step completed IH]; [reflexivity|].
  simpl. rewrite IH by (intros s Hs; apply Hall; now apply elem_of_cons; right).
  f_equal. unfold section_of, section_body. do 7 f_equal.
  destruct (Hall step) as (m & Hin & Hm); [now apply elem_of_cons; left|].
  destruct (List.find (mentionsb toLowerCase step) messages) as [first|] eqn:Hf.
  - now rewrite (find_app_found _ _ more _ Hf).
  - apply list_elem_of_In in Hin.
    change (mentionsb toLowerCase step m = true) in Hm.
    now rewrite (find_none _ _ Hf m Hin) in Hm.
Qed.

(** X20. Once every covered stage has an assistant message that names it,
    later messages change nothing of the export but its closing lines: the
    part before them is the same for the longer history. *)
Theorem generateStructuredOutput_stable
    (today : string) (messages more : list Message)
    (steps : list FrameworkStage) (progress : gmap string bool) (pct : N) :
  (forall step, step ∈ steps -> progress !! key step = Some true ->
     exists m, m ∈ messages /\ relevant step m = true) ->
  exists body,
    generateStructuredOutput today messages steps progress pct =
      body +:+ trailer messages /\
    generateStructuredOutput today (messages ++ more) steps progress pct =
      body +:+ trailer (messages ++ more).
Proof.
  intros Hall.
  exists (before_date +:+ today +:+ after_date pct +:+
          sections toLowerCase messages (List.filter (covered progress) steps)).
  rewrite !generateStructuredOutput_layout. unfold rest_of_document.
  rewrite sections_stable.
  - now rewrite !append_assoc.
  - intros step [Hin Hc]%covered_steps. now apply Hall.
Qed.

Lemma generateStructuredOutput_stable_witness :
  let stage := mkStage "problem" "Problem" "What is wrong" "P" ["problem"] in
  let history := [mkMessage assistant "The problem is clear" 1 None] in
  let more := [mkMessage assistant "Another problem" 2 None] in
  exists body,
    generateStructuredOutput "3.11.2026" history [stage] {["problem" := true]} 100 =
      body +:+ trailer history /\
    generateStructuredOutput "3.11.2026" (history ++ more) [stage]
      {["problem" := true]} 100 =
      body +:+ trailer (history ++ more).
Proof.
  cbv zeta.
  apply (generateStructuredOutput_stable "3.11.2026"
           [mkMessage assistant "The problem is clear" 1 None]
           [mkMessage assistant "Another problem" 2 None]
           [mkStage "problem" "Problem" "What is wrong" "P" ["problem"]]
           {["problem" := true]} 100).
  intros step Hin _. apply list_elem_of_singleton in Hin as ->.
  eexists. split; [apply list_elem_of_here | reflexivity].
Defined.
